(** * AVR EEPROM erase over ISP: a shallow embedding of
      [owfmodules/avrisp/eeprom_erase.py] and the properties of its
      erase protocol.

    The module talks to three collaborators that live outside the
    repository: the Octowire SPI and GPIO objects, the [DeviceID] module and
    the framework's logger.  Their calls are the effects of the program.  A
    run is modelled as a computation over the chronological list of the calls
    made so far (the history); what a collaborator answers is given by an
    environment, whose answer may depend on the whole history.  Exceptions
    are results of the computation, and the unbounded [while True] polling
    loop is given a fuel argument.  The readings of the clock are binary64
    floats, added and compared as the machine does. *)

From Stdlib Require Import ZArith List String Ascii Bool Lia.
From Stdlib Require Import PrimFloat.
From stdpp Require Import gmap strings.
Import ListNotations.

Local Open Scope Z_scope.

(** ** Data *)

(** A [bytes] object: the list of its byte values. *)
Definition bytes := list Z.

(** The result of [DeviceID.run(return_value=True)]: a dictionary whose
    values are strings, [eeprom_size] being a hexadecimal string. *)
Definition device := gmap string string.

(** The exceptions that can travel through the module.  [ValueError] is told
    apart because [run] has a handler of its own for it; [OtherException]
    stands for any other subclass of [Exception] that is not a [ValueError],
    named by its class.  What is not an [Exception] ([KeyboardInterrupt],
    [SystemExit]) is not modelled. *)
Inductive exn :=
| ValueError (msg : string)
| KeyError (key : string)
| IndexError
| StructError
| OtherException (cls : string).

Definition is_ValueError (e : exn) : bool :=
  match e with ValueError _ => true | _ => false end.

(** What Python calls return. *)
Inductive pyval := PyNone | PyBool (b : bool).

Inductive level := INFO | ERROR | SUCCESS.

(** The messages handed to [self.logger.handle].
    [MsgTooLong addr] is
    ["\nErasing at byte address '{}' took too long, exiting..".format(addr)],
    [MsgErr e] is the exception itself and [MsgNamedErr e] is
    ["{}: {}".format(type(err).__name__, err)]. *)
Inductive log_msg :=
| MsgText (s : string)
| MsgTooLong (addr : Z)
| MsgErr (e : exn)
| MsgNamedErr (e : exn).

(** One call to a collaborator, with what it answered.  The module holds one
    SPI interface and one GPIO, the reset line, so the calls on them do not
    name the object; building the two objects is no call. *)
Inductive event :=
| EConnect (ok : bool)
| EDeviceId (spi_bus reset_line spi_baudrate : Z) (r : exn + option device)
| ESpiConfigure (bus baudrate : Z) (r : option exn)
| EGpioDirection (pin : Z) (r : option exn)
| EGpioStatus (v : Z) (r : option exn)
| ETransmit (data : bytes) (r : option exn)
| EReceive (size : Z) (r : exn + bytes)
| ETime (t : float)
| ESleep (secs : float)
| ELog (lvl : level) (msg : log_msg).

Definition history := list event.

(** The environment: the answer of each collaborator, given the history.
    [None] for a call without result means that it returned normally. *)
Record Env := {
  env_connect : history -> bool;
  env_device_id : history -> Z -> Z -> Z -> exn + option device;
  env_spi_configure : history -> Z -> Z -> option exn;
  env_gpio_direction : history -> Z -> option exn;
  env_gpio_status : history -> Z -> option exn;
  env_transmit : history -> bytes -> option exn;
  env_receive : history -> Z -> exn + bytes;
  env_time : history -> float
}.

Record Options := {
  spi_bus : Z;
  reset_line : Z;
  spi_baudrate : Z
}.

(** ** The monad of effects *)

Inductive outcome (A : Type) :=
| Ret (a : A)
| Raise (e : exn)
| Diverge.
Arguments Ret {A} a.
Arguments Raise {A} e.
Arguments Diverge {A}.

Definition M (A : Type) := history -> outcome A * history.

Definition ret {A} (a : A) : M A := fun h => (Ret a, h).

Definition raise {A} (e : exn) : M A := fun h => (Raise e, h).

Definition diverge {A} : M A := fun h => (Diverge, h).

Definition bind {A B} (m : M A) (k : A -> M B) : M B :=
  fun h =>
    match m h with
    | (Ret a, h') => k a h'
    | (Raise e, h') => (Raise e, h')
    | (Diverge, h') => (Diverge, h')
    end.

(** [try: ... except Exception as err: ...] *)
Definition try_except {A} (m : M A) (handler : exn -> M A) : M A :=
  fun h =>
    match m h with
    | (Raise e, h') => handler e h'
    | r => r
    end.

Definition lift {A} (r : exn + A) : M A :=
  match r with
  | inl e => raise e
  | inr a => ret a
  end.

Notation "'let*' x ':=' m 'in' k" := (bind m (fun x => k))
  (at level 10, x name, m at level 100, k at level 200).

(** ** Pure helpers of the Python runtime *)

(** [struct.pack(">H", n)]: two bytes, most significant first;
    [struct.error] outside the range of an unsigned 16-bit number. *)
Definition struct_pack_H (n : Z) : exn + bytes :=
  if (0 <=? n) && (n <=? 65535)
  then inr [Z.shiftr n 8; Z.land n 255]
  else inl StructError.

(** [data[0]] *)
Definition index0 (data : bytes) : exn + Z :=
  match data with
  | [] => inl IndexError
  | b :: _ => inr b
  end.

(** [range(0, n, 1)] *)
Definition range0 (n : Z) : list Z :=
  map Z.of_nat (seq 0 (Z.to_nat n)).

(** [x > y] on two floats, as in [time.time() > timeout]: false when one of
    them is not a number. *)
Definition float_gt (x y : float) : bool := PrimFloat.ltb y x.

(** [int(s, 16)] on a string of ASCII characters: surrounding white space,
    an optional sign, an optional [0x] or [0X] prefix, then hexadecimal
    digits which single underscores may separate (one may follow the
    prefix).  Anything else is a [ValueError]. *)
Definition is_space (c : ascii) : bool :=
  let n := Z.of_nat (nat_of_ascii c) in
  ((9 <=? n) && (n <=? 13)) || (n =? 32).

Definition hex_digit (c : ascii) : option Z :=
  let n := Z.of_nat (nat_of_ascii c) in
  if (48 <=? n) && (n <=? 57) then Some (n - 48)
  else if (97 <=? n) && (n <=? 102) then Some (n - 87)
  else if (65 <=? n) && (n <=? 70) then Some (n - 55)
  else None.

Definition is_char (c d : ascii) : bool := Ascii.eqb c d.

Fixpoint skip_spaces (s : list ascii) : list ascii :=
  match s with
  | c :: rest => if is_space c then skip_spaces rest else s
  | [] => []
  end.

Fixpoint scan_digits (s : list ascii) (prev_underscore : bool) (acc : Z)
  : option (Z * list ascii) :=
  match s with
  | [] => if prev_underscore then None else Some (acc, [])
  | c :: rest =>
      if is_char c "_"
      then if prev_underscore then None else scan_digits rest true acc
      else match hex_digit c with
           | Some d => scan_digits rest false (acc * 16 + d)
           | None => if prev_underscore then None else Some (acc, s)
           end
  end.

Definition skip_sign (s : list ascii) : Z * list ascii :=
  match s with
  | c :: rest =>
      if is_char c "+" then (1, rest)
      else if is_char c "-" then (-1, rest)
      else (1, s)
  | [] => (1, [])
  end.

Definition skip_prefix (s : list ascii) : list ascii :=
  match s with
  | c0 :: c1 :: rest =>
      if is_char c0 "0" && (is_char c1 "x" || is_char c1 "X")
      then match rest with
           | c2 :: rest' => if is_char c2 "_" then rest' else rest
           | [] => rest
           end
      else s
  | _ => s
  end.

Definition starts_with_digit (s : list ascii) : bool :=
  match s with
  | c :: _ => match hex_digit c with Some _ => true | None => false end
  | [] => false
  end.

Definition parse_hex (s : list ascii) : option Z :=
  let (sign, s1) := skip_sign (skip_spaces s) in
  let s2 := skip_prefix s1 in
  if starts_with_digit s2
  then match scan_digits s2 false 0 with
       | Some (v, rest) =>
           match skip_spaces rest with
           | [] => Some (sign * v)
           | _ :: _ => None
           end
       | None => None
       end
  else None.

(** [repr(s)] for a string of ASCII characters: between single quotes, or
    between double quotes when [s] holds a single quote and no double
    quote; the quote and the backslash are escaped, and so is what does not
    print. *)
Definition double_quote : ascii := ascii_of_nat 34.

Definition hex_char (d : nat) : ascii :=
  ascii_of_nat (if (d <? 10)%nat then 48 + d else 87 + d).

Definition escape_char (quote c : ascii) : list ascii :=
  let n := nat_of_ascii c in
  if is_char c quote || is_char c "\" then ["\"; c]%char
  else if (n =? 9)%nat then ["\"; "t"]%char
  else if (n =? 10)%nat then ["\"; "n"]%char
  else if (n =? 13)%nat then ["\"; "r"]%char
  else if (n <? 32)%nat || (126 <? n)%nat
       then ["\"; "x"; hex_char (n / 16); hex_char (n mod 16)]%char
  else [c].

Definition repr (s : list ascii) : list ascii :=
  let quote :=
    if existsb (is_char "'") s && negb (existsb (is_char double_quote) s)
    then double_quote else "'"%char in
  quote :: concat (map (escape_char quote) s) ++ [quote].

(** The message of the [ValueError] of [int(s, 16)]: the format
    ["invalid literal for int() with base %d: %.200R"]. *)
Definition invalid_literal (s : string) : string :=
  String.append "invalid literal for int() with base 16: "
    (string_of_list_ascii (firstn 200 (repr (list_ascii_of_string s)))).

Definition int16 (s : string) : exn + Z :=
  match parse_hex (list_ascii_of_string s) with
  | Some v => inr v
  | None => inl (ValueError (invalid_literal s))
  end.

(** [d[key]] *)
Definition getitem (d : device) (key : string) : exn + string :=
  match d !! key with
  | Some v => inr v
  | None => inl (KeyError key)
  end.

(** ** The module *)

Definition read_cmd : bytes := [160].
Definition write_cmd : bytes := [192].
Definition enable_mem_access_cmd : bytes := [172; 83; 0; 0].

Section EepromErase.

Variable env : Env.

(** *** Calls to the collaborators *)

Definition connect : M bool := fun h =>
  let ok := env_connect env h in (Ret ok, h ++ [EConnect ok]).

Definition device_id_run (bus line baud : Z) : M (option device) := fun h =>
  let r := env_device_id env h bus line baud in
  (match r with inl e => Raise e | inr d => Ret d end,
   h ++ [EDeviceId bus line baud r]).

Definition call (r : option exn) (ev : event) : M unit := fun h =>
  (match r with Some e => Raise e | None => Ret tt end, h ++ [ev]).

Definition spi_configure (bus baud : Z) : M unit := fun h =>
  let r := env_spi_configure env h bus baud in
  call r (ESpiConfigure bus baud r) h.

Definition gpio_set_direction (pin : Z) : M unit := fun h =>
  let r := env_gpio_direction env h pin in
  call r (EGpioDirection pin r) h.

Definition gpio_set_status (v : Z) : M unit := fun h =>
  let r := env_gpio_status env h v in
  call r (EGpioStatus v r) h.

Definition spi_transmit (data : bytes) : M unit := fun h =>
  let r := env_transmit env h data in
  call r (ETransmit data r) h.

Definition spi_receive (size : Z) : M bytes := fun h =>
  let r := env_receive env h size in
  (match r with inl e => Raise e | inr d => Ret d end,
   h ++ [EReceive size r]).

Definition time_time : M float := fun h =>
  let t := env_time env h in (Ret t, h ++ [ETime t]).

Definition time_sleep (secs : float) : M unit := fun h =>
  (Ret tt, h ++ [ESleep secs]).

Definition logger_handle (msg : log_msg) (lvl : level) : M unit := fun h =>
  (Ret tt, h ++ [ELog lvl msg]).

(** *** [get_device_id] *)
Definition get_device_id (bus line baud : Z) : M (option device) :=
  device_id_run bus line baud.

(** *** [wait_poll_eeprom]

    The body of [while True], then the function. *)
Fixpoint poll_loop (fuel : nat) (timeout : float) (byte byte_addr : Z)
  : M bool :=
  match fuel with
  | O => diverge
  | S fuel' =>
      let* frame := lift (struct_pack_H byte_addr) in
      let* _ := spi_transmit (read_cmd ++ frame) in
      let* data := spi_receive 1 in
      let* read_byte := lift (index0 data) in
      if read_byte =? byte then ret true
      else
        let* now := time_time in
        if float_gt now timeout then ret false
        else poll_loop fuel' timeout byte byte_addr
  end.

Definition wait_poll_eeprom (fuel : nat) (byte byte_addr : Z) : M bool :=
  let* now := time_time in
  poll_loop fuel (now + 10)%float byte byte_addr.

(** *** [erase]

    [erase_sweep] is the [for addr in range(...)] loop: [Some v] when the
    body executed [return v], [None] when the loop ran to its end.  The
    progress bar of [tqdm] writes to the terminal only and is left out. *)
Fixpoint erase_sweep (fuel : nat) (addrs : list Z) : M (option bool) :=
  match addrs with
  | [] => ret None
  | addr :: rest =>
      let* frame := lift (struct_pack_H addr) in
      let* _ := spi_transmit (write_cmd ++ frame ++ [255]) in
      let* confirmed := wait_poll_eeprom fuel 255 addr in
      if negb confirmed then
        let* _ := logger_handle (MsgTooLong addr) ERROR in
        ret (Some false)
      else erase_sweep fuel rest
  end.

Definition erase (fuel : nat) (dev : device) : M bool :=
  let* _ := gpio_set_status 0 in
  let* _ := logger_handle (MsgText "Enabling Memory Access...") INFO in
  let* _ := spi_transmit enable_mem_access_cmd in
  let* _ := time_sleep 0.5%float in
  let* _ := logger_handle
              (MsgText "Erasing the EEPROM memory (Write 0xFF)...") INFO in
  let* size_str := lift (getitem dev "eeprom_size") in
  let* size := lift (int16 size_str) in
  let* returned := erase_sweep fuel (range0 size) in
  match returned with
  | Some v => ret v
  | None =>
      let* _ := gpio_set_status 1 in
      let* _ := logger_handle
                  (MsgText "EEPROM memory successfully erased.") SUCCESS in
      ret true
  end.

(** *** [process] *)
Definition process (fuel : nat) (opts : Options) : M pyval :=
  let* dev := get_device_id (spi_bus opts) (reset_line opts)
                            (spi_baudrate opts) in
  match dev with
  | None => ret PyNone
  | Some d =>
      let* _ := spi_configure (spi_bus opts) (spi_baudrate opts) in
      let* _ := gpio_set_direction (reset_line opts) in
      let* _ := gpio_set_status 1 in
      let* b := erase fuel d in
      ret (PyBool b)
  end.

(** *** [run] *)
Definition run (fuel : nat) (opts : Options) (return_value : bool)
  : M pyval :=
  let* serial := connect in
  if negb serial then ret PyNone
  else
    try_except
      (let* status := process fuel opts in
       if return_value then ret status else ret PyNone)
      (fun err =>
         if is_ValueError err
         then let* _ := logger_handle (MsgErr err) ERROR in ret PyNone
         else let* _ := logger_handle (MsgNamedErr err) ERROR in ret PyNone).

End EepromErase.

(** ** Observations on a history *)

(** The frames of the wire protocol, in plain arithmetic. *)
Definition write_frame (addr : Z) : bytes := [192; addr / 256; addr mod 256; 255].
Definition read_frame (addr : Z) : bytes := [160; addr / 256; addr mod 256].

(** The frames handed to [spi_interface.transmit], in order. *)
Fixpoint spi_sent (evs : list event) : list bytes :=
  match evs with
  | [] => []
  | ETransmit data _ :: rest => data :: spi_sent rest
  | _ :: rest => spi_sent rest
  end.

Definition starts_with (op : Z) (data : bytes) : bool :=
  match data with
  | b :: _ => b =? op
  | [] => false
  end.

(** The EEPROM write commands and the EEPROM read commands among them. *)
Definition writes (evs : list event) : list bytes :=
  filter (starts_with 192) (spi_sent evs).
Definition reads (evs : list event) : list bytes :=
  filter (starts_with 160) (spi_sent evs).

(** The calls that drive the reset line. *)
Definition is_gpio_status (ev : event) : bool :=
  match ev with EGpioStatus _ _ => true | _ => false end.

Definition is_log (ev : event) : bool :=
  match ev with ELog _ _ => true | _ => false end.

(** The clock readings, in order. *)
Fixpoint clock_readings (evs : list event) : list float :=
  match evs with
  | [] => []
  | ETime t :: rest => t :: clock_readings rest
  | _ :: rest => clock_readings rest
  end.

(** The level of the reset line: the last value that was set. *)
Fixpoint reset_level_from (cur : option Z) (evs : list event) : option Z :=
  match evs with
  | [] => cur
  | EGpioStatus v None :: rest => reset_level_from (Some v) rest
  | _ :: rest => reset_level_from cur rest
  end.
Definition reset_level (h : history) : option Z := reset_level_from None h.

(** Address [addr] was read back as [0xFF]. *)
Definition confirmed (evs : list event) (addr : Z) : Prop :=
  exists pre rest post,
    evs = pre ++ ETransmit (read_frame addr) None
              :: EReceive 1 (inr (255 :: rest)) :: post.

(** The addresses read back as [0xFF], in order. *)
Fixpoint confirmed_addrs (evs : list event) : list Z :=
  match evs with
  | ETransmit [160; hi; lo] None :: rest =>
      match rest with
      | EReceive _ (inr (255 :: _)) :: _ => (hi * 256 + lo) :: confirmed_addrs rest
      | _ => confirmed_addrs rest
      end
  | _ :: rest => confirmed_addrs rest
  | [] => []
  end.

(** The first five calls of [erase]. *)
Definition session_begin : list event :=
  [EGpioStatus 0 None;
   ELog INFO (MsgText "Enabling Memory Access...");
   ETransmit enable_mem_access_cmd None;
   ESleep 0.5%float;
   ELog INFO (MsgText "Erasing the EEPROM memory (Write 0xFF)...")].

Definition session_end : list event :=
  [EGpioStatus 1 None;
   ELog SUCCESS (MsgText "EEPROM memory successfully erased.")].

(** The size that [erase] sweeps: [int(device["eeprom_size"], 16)]. *)
Definition eeprom_size (dev : device) : exn + Z :=
  match getitem dev "eeprom_size" with
  | inl e => inl e
  | inr s => int16 s
  end.

(** ** Environments used as concrete inputs *)

Fixpoint float_of_nat (n : nat) : float :=
  match n with
  | O => 0%float
  | S n' => (float_of_nat n' + 1)%float
  end.

Definition clock_of (h : history) : float := float_of_nat (length h).

(** Every call succeeds, every read-back is [0xFF], and each call takes one
    second. *)
Definition env_ok (dev : option device) : Env := {|
  env_connect := fun _ => true;
  env_device_id := fun _ _ _ _ => inr dev;
  env_spi_configure := fun _ _ _ => None;
  env_gpio_direction := fun _ _ => None;
  env_gpio_status := fun _ _ => None;
  env_transmit := fun _ _ => None;
  env_receive := fun _ _ => inr [255];
  env_time := clock_of
|}.

(** As [env_ok], but the byte at address [stuck] reads back as [0x00]. *)
Definition env_stuck (dev : option device) (stuck : Z) : Env := {|
  env_connect := fun _ => true;
  env_device_id := fun _ _ _ _ => inr dev;
  env_spi_configure := fun _ _ _ => None;
  env_gpio_direction := fun _ _ => None;
  env_gpio_status := fun _ _ => None;
  env_transmit := fun _ _ => None;
  env_receive := fun h _ =>
    match last h with
    | Some (ETransmit [160; hi; lo] _) =>
        if hi * 256 + lo =? stuck then inr [0] else inr [255]
    | _ => inr [255]
    end;
  env_time := clock_of
|}.

(** As [env_ok], but the adapter drops out: every transmit of an EEPROM
    write command raises. *)
Definition env_unplugged (dev : option device) : Env := {|
  env_connect := fun _ => true;
  env_device_id := fun _ _ _ _ => inr dev;
  env_spi_configure := fun _ _ _ => None;
  env_gpio_direction := fun _ _ => None;
  env_gpio_status := fun _ _ => None;
  env_transmit := fun _ data =>
    if starts_with 192 data then Some (OtherException "SerialException")
    else None;
  env_receive := fun _ _ => inr [255];
  env_time := clock_of
|}.

Definition device_of_size (size : string) : device :=
  {[ "eeprom_size" := size ]}.

Definition default_options : Options :=
  {| spi_bus := 0; reset_line := 0; spi_baudrate := 1000000 |}.

(** ** The runs of each function

    Each relation lists the calls that a function can add to the history,
    with the result that goes with them; the lemmas below show that the
    function of the same name produces nothing else. *)

Definition in_range (addr : Z) : Prop := 0 <= addr <= 65535.

(** The calls that the polling loop makes for [addr]. *)
Definition poll_call (addr : Z) (ev : event) : Prop :=
  match ev with
  | ETransmit data _ => data = read_frame addr
  | EReceive size _ => size = 1
  | ETime _ => True
  | _ => False
  end.

(** [while True] in [wait_poll_eeprom]. *)
Inductive poll_run (timeout : float) (byte addr : Z)
  : list event -> outcome bool -> Prop :=
| poll_hit rest :
    poll_run timeout byte addr
      [ETransmit (read_frame addr) None; EReceive 1 (inr (byte :: rest))]
      (Ret true)
| poll_expired b rest t :
    b <> byte -> float_gt t timeout = true ->
    poll_run timeout byte addr
      [ETransmit (read_frame addr) None; EReceive 1 (inr (b :: rest)); ETime t]
      (Ret false)
| poll_again b rest t evs r :
    b <> byte -> float_gt t timeout = false ->
    poll_run timeout byte addr evs r ->
    poll_run timeout byte addr
      (ETransmit (read_frame addr) None :: EReceive 1 (inr (b :: rest))
         :: ETime t :: evs) r
| poll_stop evs r :
    (forall b, r <> Ret b) -> Forall (poll_call addr) evs ->
    poll_run timeout byte addr evs r.

(** [wait_poll_eeprom]: the deadline is taken, then the loop runs. *)
Inductive wait_run (byte addr : Z) : list event -> outcome bool -> Prop :=
| wait_intro t evs r :
    poll_run (t + 10)%float byte addr evs r ->
    wait_run byte addr (ETime t :: evs) r.

(** A result that is not a returned value, at another type. *)
Definition stopped {A B} (r : outcome A) (r' : outcome B) : Prop :=
  match r, r' with
  | Raise e, Raise e' => e = e'
  | Diverge, Diverge => True
  | _, _ => False
  end.

(** The [for] loop of [erase] over the addresses left. *)
Inductive sweep_run : list Z -> list event -> outcome (option bool) -> Prop :=
| sweep_end :
    sweep_run [] [] (Ret None)
| sweep_confirmed addr rest pevs evs r :
    in_range addr ->
    wait_run 255 addr pevs (Ret true) ->
    sweep_run rest evs r ->
    sweep_run (addr :: rest)
      (ETransmit (write_frame addr) None :: pevs ++ evs) r
| sweep_abort addr rest pevs :
    in_range addr ->
    wait_run 255 addr pevs (Ret false) ->
    sweep_run (addr :: rest)
      (ETransmit (write_frame addr) None :: pevs
         ++ [ELog ERROR (MsgTooLong addr)])
      (Ret (Some false))
| sweep_pack_error addr rest :
    ~ in_range addr ->
    sweep_run (addr :: rest) [] (Raise StructError)
| sweep_write_error addr rest e :
    in_range addr ->
    sweep_run (addr :: rest) [ETransmit (write_frame addr) (Some e)] (Raise e)
| sweep_poll_stopped addr rest pevs r r' :
    in_range addr ->
    wait_run 255 addr pevs r -> stopped r r' ->
    sweep_run (addr :: rest) (ETransmit (write_frame addr) None :: pevs) r'.

(** [erase] *)
Inductive erase_run (dev : device) : list event -> outcome bool -> Prop :=
| erase_assert_error e :
    erase_run dev [EGpioStatus 0 (Some e)] (Raise e)
| erase_enable_error e :
    erase_run dev
      [EGpioStatus 0 None; ELog INFO (MsgText "Enabling Memory Access...");
       ETransmit enable_mem_access_cmd (Some e)]
      (Raise e)
| erase_size_error e :
    eeprom_size dev = inl e ->
    erase_run dev session_begin (Raise e)
| erase_sweep_stopped size evs r r' :
    eeprom_size dev = inr size ->
    sweep_run (range0 size) evs r -> stopped r r' ->
    erase_run dev (session_begin ++ evs) r'
| erase_returned size evs v :
    eeprom_size dev = inr size ->
    sweep_run (range0 size) evs (Ret (Some v)) ->
    erase_run dev (session_begin ++ evs) (Ret v)
| erase_release_error size evs e :
    eeprom_size dev = inr size ->
    sweep_run (range0 size) evs (Ret None) ->
    erase_run dev (session_begin ++ evs ++ [EGpioStatus 1 (Some e)]) (Raise e)
| erase_success size evs :
    eeprom_size dev = inr size ->
    sweep_run (range0 size) evs (Ret None) ->
    erase_run dev (session_begin ++ evs ++ session_end) (Ret true).

(** The calls of [process] before [erase], when a device was found. *)
Definition process_begin (opts : Options) (dev : device) : list event :=
  [EDeviceId (spi_bus opts) (reset_line opts) (spi_baudrate opts)
     (inr (Some dev));
   ESpiConfigure (spi_bus opts) (spi_baudrate opts) None;
   EGpioDirection (reset_line opts) None;
   EGpioStatus 1 None].

(** [process] *)
Inductive process_run (opts : Options) : list event -> outcome pyval -> Prop :=
| process_resolver_error e :
    process_run opts
      [EDeviceId (spi_bus opts) (reset_line opts) (spi_baudrate opts) (inl e)]
      (Raise e)
| process_no_device :
    process_run opts
      [EDeviceId (spi_bus opts) (reset_line opts) (spi_baudrate opts)
         (inr None)]
      (Ret PyNone)
| process_configure_error dev e :
    process_run opts
      [EDeviceId (spi_bus opts) (reset_line opts) (spi_baudrate opts)
         (inr (Some dev));
       ESpiConfigure (spi_bus opts) (spi_baudrate opts) (Some e)]
      (Raise e)
| process_direction_error dev e :
    process_run opts
      [EDeviceId (spi_bus opts) (reset_line opts) (spi_baudrate opts)
         (inr (Some dev));
       ESpiConfigure (spi_bus opts) (spi_baudrate opts) None;
       EGpioDirection (reset_line opts) (Some e)]
      (Raise e)
| process_deassert_error dev e :
    process_run opts
      [EDeviceId (spi_bus opts) (reset_line opts) (spi_baudrate opts)
         (inr (Some dev));
       ESpiConfigure (spi_bus opts) (spi_baudrate opts) None;
       EGpioDirection (reset_line opts) None;
       EGpioStatus 1 (Some e)]
      (Raise e)
| process_erase_stopped dev evs r r' :
    erase_run dev evs r -> stopped r r' ->
    process_run opts (process_begin opts dev ++ evs) r'
| process_erased dev evs b :
    erase_run dev evs (Ret b) ->
    process_run opts (process_begin opts dev ++ evs) (Ret (PyBool b)).

(** The message that the handlers of [run] log for an exception. *)
Definition error_report (err : exn) : event :=
  ELog ERROR (if is_ValueError err then MsgErr err else MsgNamedErr err).

(** [run] *)
Inductive run_run (opts : Options) (return_value : bool)
  : list event -> outcome pyval -> Prop :=
| run_not_connected :
    run_run opts return_value [EConnect false] (Ret PyNone)
| run_processed evs status :
    process_run opts evs (Ret status) ->
    run_run opts return_value (EConnect true :: evs)
      (Ret (if return_value then status else PyNone))
| run_caught evs err :
    process_run opts evs (Raise err) ->
    run_run opts return_value (EConnect true :: evs ++ [error_report err])
      (Ret PyNone)
| run_diverges evs :
    process_run opts evs Diverge ->
    run_run opts return_value (EConnect true :: evs) Diverge.

(** ** Further observations *)

(** The exception of a call that raised. *)
Definition failed (ev : event) : option exn :=
  match ev with
  | EDeviceId _ _ _ (inl e) => Some e
  | ESpiConfigure _ _ r => r
  | EGpioDirection _ r => r
  | EGpioStatus _ r => r
  | ETransmit _ r => r
  | EReceive _ (inl e) => Some e
  | _ => None
  end.

(** No call raised. *)
Definition clean (evs : list event) : Prop :=
  Forall (fun ev => failed ev = None) evs.

(** The calls on the reset line and the logged messages, in order. *)
Definition gpio_calls (evs : list event) : list event :=
  List.filter is_gpio_status evs.
Definition logs (evs : list event) : list event :=
  List.filter is_log evs.

Definition is_byte (b : Z) : Prop := 0 <= b <= 255.

(** What the sweep transmits for one address polled [polls] times. *)
Definition address_frames (addr : Z) (polls : nat) : list bytes :=
  write_frame addr :: repeat (read_frame addr) polls.

(** What the sweep transmits for the addresses [0], [1], ... polled as many
    times as [polls] says. *)
Definition sweep_frames (polls : list nat) : list bytes :=
  concat (zip_with address_frames (range0 (Z.of_nat (length polls))) polls).

(** The level of the reset line at each call to [transmit] or [receive],
    [cur] being the level before the first call of [evs]. *)
Fixpoint spi_levels (cur : option Z) (evs : list event) : list (option Z) :=
  match evs with
  | [] => []
  | EGpioStatus v None :: rest => spi_levels (Some v) rest
  | ETransmit _ _ :: rest => cur :: spi_levels cur rest
  | EReceive _ _ :: rest => cur :: spi_levels cur rest
  | _ :: rest => spi_levels cur rest
  end.

(** The calls stop at the first one that raises, and its exception is the
    result. *)
Definition fail_fast {A} (evs : list event) (r : outcome A) : Prop :=
  clean evs
  \/ exists pre ev e,
       evs = pre ++ [ev] /\ clean pre /\ failed ev = Some e /\ r = Raise e.

Definition FailFast {A} (m : M A) : Prop :=
  forall h r h',
    m h = (r, h') -> exists evs, h' = h ++ evs /\ fail_fast evs r.

(** An environment in which every call succeeds and every read-back is
    [0xFF], the device found being [dev]. *)
Definition cooperative (env : Env) (dev : device) : Prop :=
  (forall h, env_connect env h = true)
  /\ (forall h bus line baud, env_device_id env h bus line baud = inr (Some dev))
  /\ (forall h bus baud, env_spi_configure env h bus baud = None)
  /\ (forall h pin, env_gpio_direction env h pin = None)
  /\ (forall h v, env_gpio_status env h v = None)
  /\ (forall h data, env_transmit env h data = None)
  /\ (forall h, exists rest, env_receive env h 1 = inr (255 :: rest)).

(** As [env_ok], but the clock stands at 0 during the first five calls and
    at 100 from then on. *)
Definition env_jump : Env := {|
  env_connect := fun _ => true;
  env_device_id := fun _ _ _ _ => inr None;
  env_spi_configure := fun _ _ _ => None;
  env_gpio_direction := fun _ _ => None;
  env_gpio_status := fun _ _ => None;
  env_transmit := fun _ _ => None;
  env_receive := fun _ _ => inr [255];
  env_time := fun h => if (length h <? 5)%nat then 0%float else 100%float
|}.

(** As [env_ok], but no Octowire is found. *)
Definition env_offline : Env := {|
  env_connect := fun _ => false;
  env_device_id := fun _ _ _ _ => inr None;
  env_spi_configure := fun _ _ _ => None;
  env_gpio_direction := fun _ _ => None;
  env_gpio_status := fun _ _ => None;
  env_transmit := fun _ _ => None;
  env_receive := fun _ _ => inr [255];
  env_time := clock_of
|}.

(** As [env_ok], but [receive] returns no byte. *)
Definition env_mute (dev : option device) : Env := {|
  env_connect := fun _ => true;
  env_device_id := fun _ _ _ _ => inr dev;
  env_spi_configure := fun _ _ _ => None;
  env_gpio_direction := fun _ _ => None;
  env_gpio_status := fun _ _ => None;
  env_transmit := fun _ _ => None;
  env_receive := fun _ _ => inr [];
  env_time := clock_of
|}.

(** ** Proofs *)

(** Histories are kept in the form [h ++ [ev1; ...; evn]]. *)
Ltac flatten :=
  repeat match goal with
         | H : context [(_ ++ _) ++ _] |- _ => rewrite <- app_assoc in H
         | |- context [(_ ++ _) ++ _] => rewrite <- app_assoc
         end;
  simpl app in *.

Lemma struct_pack_H_ok (n : Z) (frame : bytes) :
  struct_pack_H n = inr frame ->
  in_range n /\ frame = [n / 256; n mod 256].
Proof.
  unfold struct_pack_H, in_range.
  destruct ((0 <=? n) && (n <=? 65535)) eqn:E; [|discriminate].
  intros [= <-]. apply andb_prop in E as [E1 E2].
  split; [lia|].
  rewrite Z.shiftr_div_pow2 by lia.
  change 255 with (Z.ones 8). rewrite Z.land_ones by lia. reflexivity.
Qed.

Lemma struct_pack_H_error (n : Z) (e : exn) :
  struct_pack_H n = inl e -> e = StructError /\ ~ in_range n.
Proof.
  unfold struct_pack_H, in_range.
  destruct ((0 <=? n) && (n <=? 65535)) eqn:E; [discriminate|].
  intros [= <-]. split; [reflexivity|].
  apply andb_false_iff in E. lia.
Qed.

Lemma struct_pack_H_in_range (n : Z) :
  in_range n -> struct_pack_H n = inr [n / 256; n mod 256].
Proof.
  intros Hn. destruct (struct_pack_H n) as [e|frame] eqn:E.
  - apply struct_pack_H_error in E as [_ E]. contradiction.
  - apply struct_pack_H_ok in E as [_ ->]. reflexivity.
Qed.

Section Runs.

Variable env : Env.

Lemma poll_loop_run fuel timeout byte addr h r h' :
  poll_loop env fuel timeout byte addr h = (r, h') ->
  exists evs, h' = h ++ evs /\ poll_run timeout byte addr evs r.
Proof.
  revert h r h'. induction fuel as [|fuel IH]; intros h r h'; simpl.
  - unfold diverge. intros ?; simplify_eq. exists []. rewrite app_nil_r.
    split; [reflexivity|]. apply poll_stop; [discriminate|constructor].
  - unfold bind, lift, raise, ret, spi_transmit, call, spi_receive,
      time_time.
    destruct (struct_pack_H addr) as [e|frame] eqn:Epack; simpl.
    { intros ?; simplify_eq. exists []. rewrite app_nil_r.
      split; [reflexivity|]. apply poll_stop; [discriminate|constructor]. }
    apply struct_pack_H_ok in Epack as [Haddr ->].
    destruct (env_transmit env h _) as [e|] eqn:Etx.
    { intros ?; simplify_eq. eexists. split; [reflexivity|].
      apply poll_stop; [discriminate|]. repeat constructor. }
    destruct (env_receive env _ 1) as [e|data] eqn:Erx.
    { intros ?; simplify_eq. flatten. eexists. split; [reflexivity|].
      apply poll_stop; [discriminate|]. repeat constructor. }
    destruct data as [|b rest]; simpl.
    { intros ?; simplify_eq. flatten. eexists. split; [reflexivity|].
      apply poll_stop; [discriminate|]. repeat constructor. }
    destruct (b =? byte) eqn:Eb.
    { apply Z.eqb_eq in Eb as ->. intros ?; simplify_eq. flatten.
      eexists. split; [reflexivity|]. apply poll_hit. }
    apply Z.eqb_neq in Eb.
    destruct (float_gt _ timeout) eqn:Et.
    { intros ?; simplify_eq. flatten. eexists. split; [reflexivity|].
      apply poll_expired; assumption. }
    intros Hrec. apply IH in Hrec as (evs & -> & Hrun). flatten.
    eexists. split; [reflexivity|].
    eapply poll_again; eassumption.
Qed.

Lemma wait_poll_eeprom_run fuel byte addr h r h' :
  wait_poll_eeprom env fuel byte addr h = (r, h') ->
  exists evs, h' = h ++ evs /\ wait_run byte addr evs r.
Proof.
  unfold wait_poll_eeprom, bind, time_time. intros Hloop.
  apply poll_loop_run in Hloop as (evs & -> & Hrun). flatten.
  eexists. split; [reflexivity|]. constructor. exact Hrun.
Qed.

Lemma erase_sweep_run fuel addrs h r h' :
  erase_sweep env fuel addrs h = (r, h') ->
  exists evs, h' = h ++ evs /\ sweep_run addrs evs r.
Proof.
  revert h r h'. induction addrs as [|addr rest IH]; intros h r h'; simpl.
  - unfold ret. intros ?; simplify_eq. exists []. rewrite app_nil_r.
    split; [reflexivity|constructor].
  - unfold bind, lift, raise, ret, spi_transmit, call, logger_handle.
    destruct (struct_pack_H addr) as [e|frame] eqn:Epack; simpl.
    { apply struct_pack_H_error in Epack as [-> Haddr].
      intros ?; simplify_eq. exists []. rewrite app_nil_r.
      split; [reflexivity|]. constructor. exact Haddr. }
    apply struct_pack_H_ok in Epack as [Haddr ->].
    destruct (env_transmit env h _) as [e|] eqn:Etx.
    { intros ?; simplify_eq. eexists. split; [reflexivity|].
      apply sweep_write_error. exact Haddr. }
    destruct (wait_poll_eeprom env fuel 255 addr _) as [rp hp] eqn:Ewait.
    apply wait_poll_eeprom_run in Ewait as (pevs & -> & Hwait).
    destruct rp as [[|]|e|]; simpl.
    + intros Hrest. apply IH in Hrest as (evs & -> & Hrun). flatten.
      eexists. split; [reflexivity|].
      apply (sweep_confirmed addr rest pevs evs r); assumption.
    + intros ?; simplify_eq. flatten. eexists. split; [reflexivity|].
      apply (sweep_abort addr rest pevs); assumption.
    + intros ?; simplify_eq. flatten. eexists. split; [reflexivity|].
      apply (sweep_poll_stopped addr rest pevs (Raise e)); simpl; auto.
    + intros ?; simplify_eq. flatten. eexists. split; [reflexivity|].
      apply (sweep_poll_stopped addr rest pevs Diverge); simpl; auto.
Qed.

Lemma erase_run_sound fuel dev h r h' :
  erase env fuel dev h = (r, h') ->
  exists evs, h' = h ++ evs /\ erase_run dev evs r.
Proof.
  unfold erase, bind, lift, raise, ret, gpio_set_status, spi_transmit,
    call, logger_handle, time_sleep.
  destruct (env_gpio_status env h 0) as [e|] eqn:Eassert.
  { intros ?; simplify_eq. eexists. split; [reflexivity|]. constructor. }
  flatten.
  destruct (env_transmit env _ enable_mem_access_cmd) as [e|] eqn:Eenable.
  { intros ?; simplify_eq. flatten. eexists. split; [reflexivity|].
    constructor. }
  flatten.
  destruct (getitem dev "eeprom_size") as [e|size_str] eqn:Eitem.
  { intros ?; simplify_eq. eexists. split; [reflexivity|].
    apply erase_size_error. unfold eeprom_size. rewrite Eitem. reflexivity. }
  destruct (int16 size_str) as [e|size] eqn:Eint.
  { intros ?; simplify_eq. eexists. split; [reflexivity|].
    apply erase_size_error. unfold eeprom_size. rewrite Eitem. exact Eint. }
  assert (Hsize : eeprom_size dev = inr size).
  { unfold eeprom_size. rewrite Eitem. exact Eint. }
  destruct (erase_sweep env fuel (range0 size) _) as [rs hs] eqn:Esweep.
  apply erase_sweep_run in Esweep as (evs & -> & Hsweep). flatten.
  destruct rs as [[v|]|e|].
  - intros ?; simplify_eq. exists (session_begin ++ evs).
    split; [reflexivity|]. eapply erase_returned; eassumption.
  - destruct (env_gpio_status env _ 1) as [e|] eqn:Erelease.
    + intros ?; simplify_eq. flatten.
      exists (session_begin ++ evs ++ [EGpioStatus 1 (Some e)]).
      split; [reflexivity|]. eapply erase_release_error; eassumption.
    + intros ?; simplify_eq. flatten.
      exists (session_begin ++ evs ++ session_end).
      split; [reflexivity|]. eapply erase_success; eassumption.
  - intros ?; simplify_eq. exists (session_begin ++ evs).
    split; [reflexivity|].
    eapply (erase_sweep_stopped dev size evs (Raise e)); simpl; eauto.
  - intros ?; simplify_eq. exists (session_begin ++ evs).
    split; [reflexivity|].
    eapply (erase_sweep_stopped dev size evs Diverge); simpl; eauto.
Qed.

Lemma process_run_sound fuel opts h r h' :
  process env fuel opts h = (r, h') ->
  exists evs, h' = h ++ evs /\ process_run opts evs r.
Proof.
  unfold process, get_device_id, device_id_run, bind, ret, spi_configure,
    gpio_set_direction, gpio_set_status, call.
  destruct (env_device_id env h _ _ _) as [e|[dev|]] eqn:Edev.
  { intros ?; simplify_eq. eexists. split; [reflexivity|]. constructor. }
  2:{ intros ?; simplify_eq. eexists. split; [reflexivity|]. constructor. }
  destruct (env_spi_configure env _ _ _) as [e|] eqn:Econf.
  { intros ?; simplify_eq. flatten. eexists. split; [reflexivity|].
    constructor. }
  flatten.
  destruct (env_gpio_direction env _ _) as [e|] eqn:Edir.
  { intros ?; simplify_eq. flatten. eexists. split; [reflexivity|].
    constructor. }
  flatten.
  destruct (env_gpio_status env _ 1) as [e|] eqn:Ehigh.
  { intros ?; simplify_eq. flatten. eexists. split; [reflexivity|].
    constructor. }
  flatten.
  destruct (erase env fuel dev _) as [re he] eqn:Eerase.
  apply erase_run_sound in Eerase as (evs & -> & Herase). flatten.
  destruct re as [b|e|]; intros ?; simplify_eq;
    exists (process_begin opts dev ++ evs); (split; [reflexivity|]).
  - apply process_erased. exact Herase.
  - apply (process_erase_stopped opts dev evs (Raise e)); simpl; auto.
  - apply (process_erase_stopped opts dev evs Diverge); simpl; auto.
Qed.

Lemma run_run_sound fuel opts return_value h r h' :
  run env fuel opts return_value h = (r, h') ->
  exists evs, h' = h ++ evs /\ run_run opts return_value evs r.
Proof.
  unfold run, connect, bind, try_except, ret, logger_handle.
  destruct (env_connect env h) eqn:Econn; simpl.
  2:{ intros ?; simplify_eq. eexists. split; [reflexivity|]. constructor. }
  destruct (process env fuel opts _) as [rp hp] eqn:Eproc.
  apply process_run_sound in Eproc as (evs & -> & Hproc). flatten.
  destruct rp as [status|err|].
  - intros Hret. exists (EConnect true :: evs).
    pose proof (run_processed opts return_value evs status Hproc) as Hrun.
    destruct return_value; simplify_eq; (split; [reflexivity|exact Hrun]).
  - destruct (is_ValueError err) eqn:Everr; intros ?; simplify_eq; flatten;
      exists (EConnect true :: evs ++ [error_report err]);
      unfold error_report; rewrite Everr; (split; [reflexivity|]);
      pose proof (run_caught opts return_value evs err Hproc) as Hrun;
      unfold error_report in Hrun; rewrite Everr in Hrun; exact Hrun.
  - intros ?; simplify_eq. exists (EConnect true :: evs).
    split; [reflexivity|]. apply run_diverges. exact Hproc.
Qed.

End Runs.

(** *** Observations and concatenation *)

Lemma spi_sent_app (evs1 evs2 : list event) :
  spi_sent (evs1 ++ evs2) = spi_sent evs1 ++ spi_sent evs2.
Proof.
  induction evs1 as [|ev evs1 IH]; [reflexivity|].
  destruct ev; simpl; rewrite IH; reflexivity.
Qed.

Lemma writes_app (evs1 evs2 : list event) :
  writes (evs1 ++ evs2) = writes evs1 ++ writes evs2.
Proof. unfold writes. rewrite spi_sent_app. apply filter_app. Qed.

Lemma reads_app (evs1 evs2 : list event) :
  reads (evs1 ++ evs2) = reads evs1 ++ reads evs2.
Proof. unfold reads. rewrite spi_sent_app. apply filter_app. Qed.

Lemma reset_level_from_app (cur : option Z) (evs1 evs2 : list event) :
  reset_level_from cur (evs1 ++ evs2)
  = reset_level_from (reset_level_from cur evs1) evs2.
Proof.
  revert cur. induction evs1 as [|ev evs1 IH]; intros cur; [reflexivity|].
  destruct ev as [| | | |v [e|]| | | | |]; simpl; apply IH.
Qed.

Lemma reset_level_from_quiet (cur : option Z) (evs : list event) :
  Forall (fun ev => is_gpio_status ev = false) evs ->
  reset_level_from cur evs = cur.
Proof.
  induction 1 as [|ev evs Hev _ IH]; [reflexivity|].
  destruct ev; simpl in *; try discriminate; exact IH.
Qed.

Lemma confirmed_app_l (evs1 evs2 : list event) (addr : Z) :
  confirmed evs1 addr -> confirmed (evs1 ++ evs2) addr.
Proof.
  intros (pre & rest & post & ->). exists pre, rest, (post ++ evs2).
  rewrite <- app_assoc. reflexivity.
Qed.

Lemma confirmed_app_r (evs1 evs2 : list event) (addr : Z) :
  confirmed evs2 addr -> confirmed (evs1 ++ evs2) addr.
Proof.
  intros (pre & rest & post & ->). exists (evs1 ++ pre), rest, post.
  rewrite <- app_assoc. reflexivity.
Qed.

(** *** The polling loop *)

Lemma poll_call_facts (addr : Z) (evs : list event) :
  Forall (poll_call addr) evs ->
  writes evs = []
  /\ Forall (fun ev => is_gpio_status ev = false) evs
  /\ Forall (fun ev => is_log ev = false) evs
  /\ Forall (fun data => data = read_frame addr) (spi_sent evs).
Proof.
  induction 1 as [|ev evs Hev _ (IHw & IHg & IHl & IHs)].
  - repeat split; constructor.
  - destruct ev; simpl in Hev; try contradiction; subst;
      repeat split; try (constructor; auto); exact IHw || exact IHs.
Qed.

Lemma poll_run_calls timeout byte addr evs r :
  poll_run timeout byte addr evs r -> Forall (poll_call addr) evs.
Proof.
  induction 1; repeat (constructor; simpl; auto); assumption.
Qed.

Lemma poll_run_true timeout byte addr evs :
  poll_run timeout byte addr evs (Ret true) ->
  exists pre rest,
    evs = pre ++ [ETransmit (read_frame addr) None;
                  EReceive 1 (inr (byte :: rest))].
Proof.
  intros Hrun. remember (Ret true) as r eqn:Er.
  induction Hrun as [rest| |b rest t evs r _ _ _ IH|evs r Hr _].
  - exists [], rest. reflexivity.
  - discriminate.
  - destruct (IH Er) as (pre & rest' & ->).
    eexists (_ :: _ :: _ :: pre), rest'. reflexivity.
  - subst r. destruct (Hr true). reflexivity.
Qed.

Lemma poll_run_false timeout byte addr evs :
  poll_run timeout byte addr evs (Ret false) ->
  exists pre t,
    evs = pre ++ [ETime t]
    /\ float_gt t timeout = true
    /\ Forall (fun t' => float_gt t' timeout = false) (clock_readings pre).
Proof.
  intros Hrun. remember (Ret false) as r eqn:Er.
  induction Hrun as [|b rest t _ Ht|b rest t evs r _ Ht _ IH|evs r Hr _].
  - discriminate.
  - eexists [_; _], t. repeat split; [exact Ht|constructor].
  - destruct (IH Er) as (pre & t' & -> & Ht' & Hpre).
    eexists (_ :: _ :: _ :: pre), t'. repeat split; [exact Ht'|].
    simpl. constructor; assumption.
  - subst r. destruct (Hr false). reflexivity.
Qed.

Lemma poll_run_reads timeout byte addr evs b :
  poll_run timeout byte addr evs (Ret b) -> (1 <= length (reads evs))%nat.
Proof.
  intros Hrun. remember (Ret b) as r eqn:Er.
  induction Hrun as [| | |evs r Hr _]; simpl; try lia.
  subst r. destruct (Hr b). reflexivity.
Qed.

Lemma wait_run_facts byte addr evs r :
  wait_run byte addr evs r ->
  writes evs = []
  /\ Forall (fun ev => is_gpio_status ev = false) evs
  /\ Forall (fun ev => is_log ev = false) evs
  /\ Forall (fun data => data = read_frame addr) (spi_sent evs).
Proof.
  intros [t pevs r' Hrun]. apply poll_run_calls, poll_call_facts in Hrun.
  destruct Hrun as (Hw & Hg & Hl & Hs).
  repeat split; try (constructor; auto); assumption.
Qed.

Lemma wait_run_true addr evs :
  wait_run 255 addr evs (Ret true) -> confirmed evs addr.
Proof.
  intros Hrun. inversion Hrun as [t pevs r Hpoll]; subst.
  apply poll_run_true in Hpoll as (pre & rest & ->).
  exists (ETime t :: pre), rest, []. reflexivity.
Qed.

Lemma wait_run_reads byte addr evs b :
  wait_run byte addr evs (Ret b) -> (1 <= length (reads evs))%nat.
Proof.
  intros Hrun. inversion Hrun as [t pevs r Hpoll]; subst.
  apply poll_run_reads in Hpoll. exact Hpoll.
Qed.

(** *** The sweep *)

Lemma writes_write_frame addr r evs :
  writes (ETransmit (write_frame addr) r :: evs) = write_frame addr :: writes evs.
Proof. reflexivity. Qed.

Lemma reads_write_frame addr r evs :
  reads (ETransmit (write_frame addr) r :: evs) = reads evs.
Proof. reflexivity. Qed.

Lemma sweep_run_quiet addrs evs r :
  sweep_run addrs evs r -> Forall (fun ev => is_gpio_status ev = false) evs.
Proof.
  induction 1 as [|addr rest pevs evs r _ Hwait _ IH|addr rest pevs _ Hwait
                  | | |addr rest pevs r r' _ Hwait _];
    try (apply wait_run_facts in Hwait as (_ & Hg & _));
    repeat first [apply Forall_cons; split; [reflexivity|]
                 |apply Forall_app; split
                 |apply Forall_nil; exact I
                 |assumption].
Qed.

Lemma sweep_run_writes addrs evs r :
  sweep_run addrs evs r ->
  exists done todo,
    addrs = done ++ todo
    /\ writes evs = map write_frame done
    /\ Forall in_range done.
Proof.
  induction 1 as [|addr rest pevs evs r Haddr Hwait _ IH
                  |addr rest pevs Haddr Hwait
                  |addr rest _|addr rest e Haddr
                  |addr rest pevs r r' Haddr Hwait _];
    try (apply wait_run_facts in Hwait as (Hw & _)).
  - exists [], []. repeat split. constructor.
  - destruct IH as (done & todo & -> & IHw & IHr).
    exists (addr :: done), todo. rewrite writes_write_frame, writes_app, Hw, IHw.
    repeat split. constructor; assumption.
  - exists [addr], rest. rewrite writes_write_frame, writes_app, Hw.
    repeat split. constructor; [assumption|constructor].
  - exists [], (addr :: rest). repeat split. constructor.
  - exists [addr], rest. repeat split. constructor; [assumption|constructor].
  - exists [addr], rest. rewrite writes_write_frame, Hw.
    repeat split. constructor; [assumption|constructor].
Qed.

Lemma sweep_run_done addrs evs :
  sweep_run addrs evs (Ret None) ->
  writes evs = map write_frame addrs
  /\ Forall in_range addrs
  /\ (length addrs <= length (reads evs))%nat
  /\ (forall addr, In addr addrs -> confirmed evs addr)
  /\ Forall (fun ev => is_log ev = false) evs.
Proof.
  intros Hrun. remember (Ret None) as r eqn:Er.
  induction Hrun as [|addr rest pevs evs r Haddr Hwait _ IH
                     | | | |addr rest pevs r r' _ _ Hstop]; try discriminate.
  - repeat split; try constructor. intros addr [].
  - destruct (IH Er) as (IHw & IHr & IHn & IHc & IHl).
    pose proof (wait_run_true _ _ Hwait) as Hconf.
    pose proof (wait_run_reads _ _ _ _ Hwait) as Hreads.
    apply wait_run_facts in Hwait as (Hw & _ & Hl & _).
    rewrite writes_write_frame, reads_write_frame, writes_app, reads_app,
      length_app, Hw, IHw.
    repeat split.
    + constructor; assumption.
    + simpl. lia.
    + intros a [<-|Ha].
      * apply (confirmed_app_r [_]), confirmed_app_l. exact Hconf.
      * apply (confirmed_app_r [_]), confirmed_app_r. apply IHc. exact Ha.
    + constructor; [reflexivity|]. apply Forall_app. split; assumption.
  - subst r'. destruct r; contradiction.
Qed.

Lemma sweep_run_returned addrs evs v :
  sweep_run addrs evs (Ret (Some v)) ->
  v = false
  /\ exists pre k post mid,
       addrs = pre ++ k :: post
       /\ evs = mid ++ [ELog ERROR (MsgTooLong k)]
       /\ Forall (fun ev => is_log ev = false) mid
       /\ writes evs = map write_frame (pre ++ [k])
       /\ (forall addr, In addr pre -> confirmed evs addr).
Proof.
  intros Hrun. remember (Ret (Some v)) as r eqn:Er.
  induction Hrun as [|addr rest pevs evs r Haddr Hwait _ IH
                     |addr rest pevs Haddr Hwait
                     | | |addr rest pevs r r' _ _ Hstop]; try discriminate.
  - destruct (IH Er) as (-> & pre & k & post & mid & -> & -> & Hl & Hw & Hc).
    split; [reflexivity|].
    pose proof (wait_run_true _ _ Hwait) as Hconf.
    apply wait_run_facts in Hwait as (Hwp & _ & Hlp & _).
    exists (addr :: pre), k, post, (ETransmit (write_frame addr) None :: pevs ++ mid).
    repeat split.
    + simpl. rewrite <- app_assoc. reflexivity.
    + constructor; [reflexivity|]. apply Forall_app. split; assumption.
    + rewrite writes_write_frame, writes_app, Hwp, Hw. reflexivity.
    + intros a [<-|Ha].
      * apply (confirmed_app_r [_]), confirmed_app_l. exact Hconf.
      * apply (confirmed_app_r [_]), confirmed_app_r. apply Hc. exact Ha.
  - injection Er as <-. split; [reflexivity|].
    apply wait_run_facts in Hwait as (Hwp & _ & Hlp & _).
    exists [], addr, rest, (ETransmit (write_frame addr) None :: pevs).
    repeat split.
    + constructor; [reflexivity|assumption].
    + rewrite writes_write_frame, writes_app, Hwp. reflexivity.
    + intros a [].
  - subst r'. destruct r; contradiction.
Qed.

Lemma sweep_run_returned_clock addrs evs v :
  sweep_run addrs evs (Ret (Some v)) ->
  exists mid t k, evs = mid ++ [ETime t; ELog ERROR (MsgTooLong k)].
Proof.
  intros Hrun. remember (Ret (Some v)) as r eqn:Er.
  induction Hrun as [|addr rest pevs evs r Haddr Hwait _ IH
                     |addr rest pevs Haddr Hwait
                     | | |addr rest pevs r r' _ _ Hstop]; try discriminate.
  - destruct (IH Er) as (mid & t & k & ->).
    exists (ETransmit (write_frame addr) None :: pevs ++ mid), t, k.
    simpl. rewrite <- app_assoc. reflexivity.
  - inversion Hwait as [t0 evs' r' Hpoll]; subst.
    apply poll_run_false in Hpoll as (pre & t & -> & _).
    exists (ETransmit (write_frame addr) None :: ETime t0 :: pre), t, addr.
    simpl. rewrite <- app_assoc. reflexivity.
  - subst r'. destruct r; contradiction.
Qed.

Lemma sweep_run_silent addrs evs r :
  sweep_run addrs evs r -> (forall v, r <> Ret (Some v)) ->
  Forall (fun ev => is_log ev = false) evs.
Proof.
  induction 1 as [|addr rest pevs evs r _ Hwait _ IH|addr rest pevs _ Hwait
                  | | |addr rest pevs r r' _ Hwait _]; intros Hr;
    try (apply wait_run_facts in Hwait as (_ & _ & Hl & _)).
  - constructor.
  - constructor; [reflexivity|]. apply Forall_app. split; auto.
  - destruct (Hr false). reflexivity.
  - constructor.
  - constructor; [reflexivity|constructor].
  - constructor; [reflexivity|assumption].
Qed.

(** *** [range] and the frames *)

Lemma seq_split (n : nat) (l1 l2 : list nat) (x : nat) :
  seq 0 n = l1 ++ x :: l2 -> l1 = seq 0 x /\ (x < n)%nat.
Proof.
  intros Hseq.
  assert (Hlen : n = (length l1 + S (length l2))%nat).
  { apply (f_equal length) in Hseq.
    rewrite length_seq, length_app in Hseq. exact Hseq. }
  assert (Hx : x = length l1).
  { assert (Hnth : nth (length l1) (seq 0 n) 0%nat = (0 + length l1)%nat)
      by (apply seq_nth; lia).
    rewrite Hseq, app_nth2, Nat.sub_diag in Hnth by lia. exact Hnth. }
  split; [|lia].
  replace n with (x + (n - x))%nat in Hseq by lia.
  rewrite seq_app in Hseq.
  apply app_inj_1 in Hseq as [Hseq _]; [symmetry; exact Hseq|].
  rewrite length_seq. exact Hx.
Qed.

Lemma range0_split (n k : Z) (pre post : list Z) :
  range0 n = pre ++ k :: post -> pre = range0 k /\ 0 <= k < n.
Proof.
  unfold range0. intros Hrange.
  apply map_eq_app in Hrange as (l1 & l2 & Hseq & <- & Hl2).
  destruct l2 as [|x l2]; [discriminate|]. injection Hl2 as <- <-.
  apply seq_split in Hseq as [-> Hx].
  rewrite Nat2Z.id. split; [reflexivity|lia].
Qed.

Lemma range0_succ (k : Z) :
  0 <= k -> range0 (k + 1) = range0 k ++ [k].
Proof.
  intros Hk. unfold range0.
  replace (Z.to_nat (k + 1)) with (Z.to_nat k + 1)%nat by lia.
  rewrite seq_app, map_app. simpl. rewrite Z2Nat.id by lia. reflexivity.
Qed.

Lemma range0_In (n a : Z) : In a (range0 n) <-> 0 <= a < n.
Proof.
  unfold range0. rewrite in_map_iff. split.
  - intros (x & <- & Hx). apply in_seq in Hx. lia.
  - intros Ha. exists (Z.to_nat a). split; [lia|]. apply in_seq. lia.
Qed.

Lemma range0_length (n : Z) : length (range0 n) = Z.to_nat n.
Proof. unfold range0. rewrite length_map, length_seq. reflexivity. Qed.

Lemma range0_NoDup (n : Z) : List.NoDup (range0 n).
Proof.
  unfold range0. apply Finite.Injective_map_NoDup.
  - intros x y Hxy. lia.
  - apply List.seq_NoDup.
Qed.

Lemma write_frame_inj (a b : Z) : write_frame a = write_frame b -> a = b.
Proof.
  unfold write_frame. intros [= Hdiv Hmod].
  rewrite (Z.div_mod a 256), (Z.div_mod b 256) by lia. congruence.
Qed.

Lemma reset_level_app (h evs : list event) :
  reset_level (h ++ evs) = reset_level_from (reset_level h) evs.
Proof. apply reset_level_from_app. Qed.

(** ** The Poll Verifier *)

(** C4: an iteration of the polling loop whose read-back equals the expected
    byte returns [True] without reading the clock, whatever the deadline is:
    the comparison with the expected byte comes before the test of the
    deadline.  In particular, when this is the first iteration of a call of
    [wait_poll_eeprom], the call returns [True] at once, and the only clock
    reading of the call is the one that computed the deadline. *)
Theorem wait_poll_match_before_deadline
    (env : Env) (fuel : nat) (byte addr : Z) (rest : bytes) (hi : history) :
  in_range addr ->
  env_transmit env hi (read_frame addr) = None ->
  env_receive env (hi ++ [ETransmit (read_frame addr) None]) 1
    = inr (byte :: rest) ->
  (forall timeout,
      poll_loop env (S fuel) timeout byte addr hi
      = (Ret true,
         hi ++ [ETransmit (read_frame addr) None;
                EReceive 1 (inr (byte :: rest))]))
  /\ (forall h,
        hi = h ++ [ETime (env_time env h)] ->
        wait_poll_eeprom env (S fuel) byte addr h
        = (Ret true,
           h ++ [ETime (env_time env h);
                 ETransmit (read_frame addr) None;
                 EReceive 1 (inr (byte :: rest))])).
Proof.
  intros Haddr Htx Hrx.
  assert (Hloop : forall timeout,
             poll_loop env (S fuel) timeout byte addr hi
             = (Ret true,
                hi ++ [ETransmit (read_frame addr) None;
                       EReceive 1 (inr (byte :: rest))])).
  { intros timeout. unfold read_frame in *. simpl.
    unfold bind, lift, ret, spi_transmit, call, spi_receive.
    rewrite (struct_pack_H_in_range addr Haddr). simpl.
    rewrite Htx, Hrx. simpl. rewrite Z.eqb_refl, <- app_assoc. reflexivity. }
  split; [exact Hloop|].
  intros h ->. unfold wait_poll_eeprom, bind, time_time.
  rewrite Hloop, <- app_assoc. reflexivity.
Qed.

Lemma wait_poll_match_before_deadline_witness :
  wait_poll_eeprom (env_ok None) 1 255 7 []
  = (Ret true,
     [ETime 0%float; ETransmit [160; 0; 7] None; EReceive 1 (inr [255])]).
Proof.
  refine (proj2 (wait_poll_match_before_deadline
                   (env_ok None) 0 255 7 [] [ETime 0%float] _ _ _) [] _).
  - unfold in_range. lia.
  - reflexivity.
  - reflexivity.
  - reflexivity.
Defined.

Section PollTimeout.

Variables (env : Env) (byte addr : Z) (patience : nat) (timeout : float).

Hypothesis transmit_ok : forall h data, env_transmit env h data = None.
Hypothesis never_matches :
  forall h, exists b rest, env_receive env h 1 = inr (b :: rest) /\ b <> byte.
Hypothesis clock_passes :
  forall h, (patience <= length h)%nat ->
            float_gt (env_time env h) timeout = true.
Hypothesis addr_in_range : in_range addr.

Lemma poll_loop_expires (fuel : nat) (h : history) :
  (0 < fuel)%nat -> (patience < length h + 3 * fuel)%nat ->
  exists h', poll_loop env fuel timeout byte addr h = (Ret false, h').
Proof.
  revert h. induction fuel as [|fuel IH]; intros h Hfuel Hlen; [lia|].
  simpl. unfold bind, lift, ret, spi_transmit, call, spi_receive, time_time.
  rewrite (struct_pack_H_in_range addr addr_in_range). simpl.
  rewrite transmit_ok.
  destruct (never_matches (h ++ [ETransmit (read_frame addr) None]))
    as (b & rest & Hrx & Hb).
  unfold read_frame in Hrx. rewrite Hrx.
  simpl. apply Z.eqb_neq in Hb. rewrite Hb.
  destruct (float_gt _ timeout) eqn:Enow; [eexists; reflexivity|].
  assert (Hshort : ~ (patience <= length h + 2)%nat).
  { intros Hp. rewrite clock_passes in Enow; [discriminate|].
    rewrite !length_app. simpl. lia. }
  apply IH; [lia|]. rewrite !length_app. simpl. lia.
Qed.

End PollTimeout.

(** C5: when no read-back ever equals the expected byte, the transport works
    and the clock passes the deadline at some point, [wait_poll_eeprom]
    returns [False], it does not raise.  The deadline is the float sum of
    the first clock reading and 10: the reading that ends the call is
    greater than it, every reading before it is not, and the call transmits
    read commands for [addr] only: no write command, and no call on the
    reset line. *)
Theorem wait_poll_timeout
    (env : Env) (fuel patience : nat) (byte addr : Z) (h : history) :
  in_range addr ->
  (forall h' data, env_transmit env h' data = None) ->
  (forall h', exists b rest,
      env_receive env h' 1 = inr (b :: rest) /\ b <> byte) ->
  (forall h', (patience <= length h')%nat ->
              float_gt (env_time env h') (env_time env h + 10)%float = true) ->
  (0 < fuel)%nat ->
  (patience <= length h + 3 * fuel)%nat ->
  exists evs t,
    wait_poll_eeprom env fuel byte addr h
    = (Ret false, h ++ ETime (env_time env h) :: evs ++ [ETime t])
    /\ float_gt t (env_time env h + 10)%float = true
    /\ Forall (fun t' => float_gt t' (env_time env h + 10)%float = false)
              (clock_readings evs)
    /\ Forall (fun data => data = read_frame addr) (spi_sent evs)
    /\ writes evs = []
    /\ Forall (fun ev => is_gpio_status ev = false) evs.
Proof.
  intros Haddr Htx Hrx Hclock Hfuel Hpatience.
  unfold wait_poll_eeprom, bind, time_time.
  destruct (poll_loop_expires env byte addr patience
              (env_time env h + 10)%float
              Htx Hrx Hclock Haddr fuel (h ++ [ETime (env_time env h)]) Hfuel)
    as [h' Hloop].
  { rewrite length_app. simpl. lia. }
  rewrite Hloop.
  apply poll_loop_run in Hloop as (evs & -> & Hrun).
  pose proof (poll_run_calls _ _ _ _ _ Hrun) as Hcalls.
  apply poll_run_false in Hrun as (pre & t & -> & Ht & Hpre).
  apply Forall_app in Hcalls as [Hcalls _].
  apply poll_call_facts in Hcalls as (Hw & Hg & _ & Hs).
  exists pre, t. rewrite <- app_assoc. repeat split; assumption.
Qed.

Lemma wait_poll_timeout_witness :
  exists evs t,
    wait_poll_eeprom env_jump 4 0 7 []
    = (Ret false, [] ++ ETime (env_time env_jump []) :: evs ++ [ETime t])
    /\ float_gt t (env_time env_jump [] + 10)%float = true
    /\ Forall (fun t' => float_gt t' (env_time env_jump [] + 10)%float = false)
              (clock_readings evs)
    /\ Forall (fun data => data = read_frame 7) (spi_sent evs)
    /\ writes evs = []
    /\ Forall (fun ev => is_gpio_status ev = false) evs.
Proof.
  apply (wait_poll_timeout env_jump 4 5 0 7 []).
  - unfold in_range. lia.
  - reflexivity.
  - intros h'. exists 255, []. split; [reflexivity|lia].
  - intros h' Hlen. cbn [env_time env_jump].
    apply Nat.ltb_ge in Hlen. rewrite Hlen. reflexivity.
  - lia.
  - simpl. lia.
Defined.

(** *** [erase] *)

Lemma not_log_In (evs : list event) (lvl : level) (msg : log_msg) :
  Forall (fun ev => is_log ev = false) evs -> ~ In (ELog lvl msg) evs.
Proof.
  intros Hall Hin. rewrite Forall_forall in Hall.
  apply list_elem_of_In, Hall in Hin. discriminate.
Qed.

Lemma not_gpio_In (evs : list event) (v : Z) (r : option exn) :
  Forall (fun ev => is_gpio_status ev = false) evs -> ~ In (EGpioStatus v r) evs.
Proof.
  intros Hall Hin. rewrite Forall_forall in Hall.
  apply list_elem_of_In, Hall in Hin. discriminate.
Qed.

Lemma stopped_not_Ret {A B} (r : outcome A) (r' : outcome B) :
  stopped r r' -> (forall a, r <> Ret a) /\ (forall b, r' <> Ret b).
Proof. destruct r, r'; simpl; intros []; split; discriminate. Qed.

Lemma erase_run_timeout dev size evs r k :
  erase_run dev evs r ->
  eeprom_size dev = inr size ->
  In (ELog ERROR (MsgTooLong k)) evs ->
  r = Ret false
  /\ 0 <= k < size
  /\ writes evs = map write_frame (range0 (k + 1))
  /\ (exists mid t, evs = mid ++ [ETime t; ELog ERROR (MsgTooLong k)])
  /\ (forall addr, 0 <= addr < k -> confirmed evs addr).
Proof.
  intros Hrun Hsize Hin.
  destruct Hrun as [e|e|e Herr|size' evs r r' Hsize' Hsweep Hstop
                    |size' evs v Hsize' Hsweep
                    |size' evs e Hsize' Hsweep|size' evs Hsize' Hsweep];
    try (simpl in Hin; intuition discriminate).
  - exfalso. apply in_app_or in Hin as [Hin|Hin];
      [simpl in Hin; intuition discriminate|].
    apply stopped_not_Ret in Hstop as [Hr _].
    apply (not_log_In evs ERROR (MsgTooLong k)); [|exact Hin].
    apply (sweep_run_silent _ _ _ Hsweep). intros v ->. destruct (Hr (Some v)).
    reflexivity.
  - assert (size' = size) as -> by congruence.
    pose proof (sweep_run_returned_clock _ _ _ Hsweep) as (mid2 & t & k2 & Hclock).
    apply sweep_run_returned in Hsweep
      as (-> & pre & k' & post & mid & Hrange & -> & Hmid & Hw & Hconf).
    assert (k' = k) as ->.
    { apply in_app_or in Hin as [Hin|Hin];
        [simpl in Hin; intuition discriminate|].
      apply in_app_or in Hin as [Hin|Hin].
      - destruct (not_log_In _ _ _ Hmid Hin).
      - simpl in Hin. destruct Hin as [[= ->]|[]]. reflexivity. }
    apply range0_split in Hrange as [-> Hk].
    repeat split; try lia.
    + rewrite writes_app, Hw, range0_succ by lia. reflexivity.
    + change (mid2 ++ [ETime t; ELog ERROR (MsgTooLong k2)])
        with (mid2 ++ [ETime t] ++ [ELog ERROR (MsgTooLong k2)]) in Hclock.
      rewrite app_assoc in Hclock. apply app_inj_tail in Hclock as [-> _].
      exists (session_begin ++ mid2), t. rewrite <- !app_assoc. reflexivity.
    + intros addr Haddr. apply confirmed_app_r, Hconf, range0_In. exact Haddr.
  - exfalso. apply sweep_run_done in Hsweep as (_ & _ & _ & _ & Hlog).
    apply in_app_or in Hin as [Hin|Hin];
      [simpl in Hin; intuition discriminate|].
    apply in_app_or in Hin as [Hin|Hin];
      [|simpl in Hin; intuition discriminate].
    destruct (not_log_In _ _ _ Hlog Hin).
  - exfalso. apply sweep_run_done in Hsweep as (_ & _ & _ & _ & Hlog).
    apply in_app_or in Hin as [Hin|Hin];
      [simpl in Hin; intuition discriminate|].
    apply in_app_or in Hin as [Hin|Hin];
      [|simpl in Hin; intuition discriminate].
    destruct (not_log_In _ _ _ Hlog Hin).
Qed.

Lemma erase_run_success dev size evs :
  erase_run dev evs (Ret true) ->
  eeprom_size dev = inr size ->
  exists mid,
    evs = session_begin ++ mid ++ session_end
    /\ sweep_run (range0 size) mid (Ret None).
Proof.
  intros Hrun Hsize. remember (Ret true) as r eqn:Er.
  destruct Hrun as [e|e|e Herr|size' evs r r' Hsize' Hsweep Hstop
                    |size' evs v Hsize' Hsweep
                    |size' evs e Hsize' Hsweep|size' evs Hsize' Hsweep];
    try discriminate.
  - apply stopped_not_Ret in Hstop as [_ Hr]. destruct (Hr true). exact Er.
  - injection Er as ->.
    apply sweep_run_returned in Hsweep as [Hv _]. discriminate.
  - assert (size' = size) as -> by congruence.
    exists evs. split; [reflexivity|exact Hsweep].
Qed.

(** ** The Erase Engine *)

(** C3: a successful [erase] of a device of [size > 0] bytes transmits exactly
    [size] write commands, the one of address 0 first and then one address
    after the other up to [size - 1], each being [0xC0], the address as two
    bytes with the high byte first, and [0xFF]; and it transmits at least
    [size] read commands. *)
Theorem erase_success_sweep
    (env : Env) (fuel : nat) (dev : device) (size : Z) (h evs : history) :
  eeprom_size dev = inr size ->
  0 < size ->
  erase env fuel dev h = (Ret true, h ++ evs) ->
  writes evs = map (fun addr => [192; addr / 256; addr mod 256; 255])
                   (range0 size)
  /\ length (writes evs) = Z.to_nat size
  /\ (Z.to_nat size <= length (reads evs))%nat.
Proof.
  intros Hsize Hpos Herase.
  apply erase_run_sound in Herase as (evs' & Heq & Hrun).
  apply app_inv_head in Heq as <-.
  destruct (erase_run_success dev size evs Hrun Hsize) as (mid & -> & Hsweep).
  apply sweep_run_done in Hsweep as (Hw & _ & Hr & _).
  assert (Hwrites : writes (session_begin ++ mid ++ session_end)
                    = map write_frame (range0 size)).
  { rewrite !writes_app, Hw. simpl. apply app_nil_r. }
  repeat split.
  - exact Hwrites.
  - rewrite Hwrites, length_map. apply range0_length.
  - rewrite !reads_app, !length_app, <- (range0_length size). lia.
Qed.

Lemma erase_success_sweep_witness :
  let evs := snd (erase (env_ok None) 1 (device_of_size "0x0002") []) in
  writes evs = [[192; 0; 0; 255]; [192; 0; 1; 255]]
  /\ length (writes evs) = 2%nat
  /\ (2 <= length (reads evs))%nat.
Proof.
  apply (erase_success_sweep (env_ok None) 1 (device_of_size "0x0002") 2 []).
  - vm_compute. reflexivity.
  - lia.
  - vm_compute. reflexivity.
Defined.

(** C2: when the Poll Verifier reports a failure for address [k], which
    [erase] logs as its error message, the run returns [False]; its write
    commands are those of the addresses 0 to [k], one each and in this order,
    and none for a later address; every address before [k] was read back as
    [0xFF]; and the run ends with the clock reading that ended the poll of
    [k] and the error message: nothing of the sweep follows. *)
Theorem erase_abort_sweep
    (env : Env) (fuel : nat) (dev : device) (size k : Z)
    (h evs : history) (r : outcome bool) :
  eeprom_size dev = inr size ->
  erase env fuel dev h = (r, h ++ evs) ->
  In (ELog ERROR (MsgTooLong k)) evs ->
  r = Ret false
  /\ 0 <= k < size
  /\ writes evs = map write_frame (range0 (k + 1))
  /\ (forall addr, 0 <= addr < k -> confirmed evs addr)
  /\ exists mid t, evs = mid ++ [ETime t; ELog ERROR (MsgTooLong k)].
Proof.
  intros Hsize Herase Hin.
  apply erase_run_sound in Herase as (evs' & Heq & Hrun).
  apply app_inv_head in Heq as <-.
  destruct (erase_run_timeout dev size evs r k Hrun Hsize Hin)
    as (Hr & Hk & Hw & Hmid & Hconf).
  repeat split; try assumption; lia.
Qed.

Lemma last_Some_In {A} (l : list A) (x : A) : last l = Some x -> In x l.
Proof. intros Hlast. apply list_elem_of_In, last_Some_elem_of, Hlast. Qed.

(** The scenario of the specification: 512 bytes, address [0x0050] never
    confirms. *)
Lemma erase_abort_sweep_witness :
  let run := erase (env_stuck None 80) 4 (device_of_size "0x0200") [] in
  fst run = Ret false
  /\ 0 <= 80 < 512
  /\ writes (snd run) = map write_frame (range0 (80 + 1))
  /\ (forall addr, 0 <= addr < 80 -> confirmed (snd run) addr)
  /\ exists mid t, snd run = mid ++ [ETime t; ELog ERROR (MsgTooLong 80)].
Proof.
  apply (erase_abort_sweep (env_stuck None 80) 4 (device_of_size "0x0200")
           512 80 []).
  - vm_compute. reflexivity.
  - vm_compute. reflexivity.
  - apply last_Some_In. vm_compute. reflexivity.
Defined.

(** C6: [erase] starts with the reset line set to 0, then the command
    [AC 53 00 00], then the delay of half a second; every other SPI call of
    the run, and so every write command, comes after these.  The only runs
    that do not start with the whole sequence are those in which one of its
    two calls raises, and they end there. *)
Theorem erase_session_begin_first
    (env : Env) (fuel : nat) (dev : device) (h : history) :
  exists evs,
    snd (erase env fuel dev h) = h ++ evs
    /\ ((exists rest,
            evs = [EGpioStatus 0 None;
                   ELog INFO (MsgText "Enabling Memory Access...");
                   ETransmit [172; 83; 0; 0] None;
                   ESleep 0.5%float;
                   ELog INFO
                     (MsgText "Erasing the EEPROM memory (Write 0xFF)...")]
                  ++ rest)
        \/ (exists e,
               fst (erase env fuel dev h) = Raise e
               /\ (evs = [EGpioStatus 0 (Some e)]
                   \/ evs = [EGpioStatus 0 None;
                             ELog INFO (MsgText "Enabling Memory Access...");
                             ETransmit [172; 83; 0; 0] (Some e)]))).
Proof.
  destruct (erase env fuel dev h) as [r h'] eqn:Herase.
  apply erase_run_sound in Herase as (evs & -> & Hrun).
  exists evs. split; [reflexivity|]. simpl.
  destruct Hrun;
    first [ right; eexists; split; [reflexivity|]; (left + right); reflexivity
          | left; eexists; reflexivity
          | left; exists []; reflexivity ].
Qed.

(** ** The run *)

(** C7, as the code has it: when the resolver finds no device, [run]
    returns [None] after the call to the resolver: it makes no call on the
    SPI interface and none on the reset line, and it makes no report either,
    logging nothing. *)
Theorem run_no_device
    (env : Env) (fuel : nat) (opts : Options) (return_value : bool)
    (h : history) :
  env_connect env h = true ->
  env_device_id env (h ++ [EConnect true])
    (spi_bus opts) (reset_line opts) (spi_baudrate opts) = inr None ->
  let evs := [EConnect true;
              EDeviceId (spi_bus opts) (reset_line opts) (spi_baudrate opts)
                (inr None)] in
  run env fuel opts return_value h = (Ret PyNone, h ++ evs)
  /\ spi_sent evs = []
  /\ reset_level (h ++ evs) = reset_level h
  /\ Forall (fun ev => is_gpio_status ev = false /\ is_log ev = false) evs.
Proof.
  intros Hconn Hdev evs. repeat split.
  - unfold run, connect, try_except, process, get_device_id,
      device_id_run, ret, bind.
    rewrite Hconn. simpl. rewrite Hdev. simpl.
    destruct return_value; rewrite <- app_assoc; reflexivity.
  - apply reset_level_app.
  - repeat constructor.
Qed.

Lemma run_no_device_witness :
  run (env_ok None) 1 default_options true []
  = (Ret PyNone, [EConnect true; EDeviceId 0 0 1000000 (inr None)]).
Proof.
  refine (proj1 (run_no_device (env_ok None) 1 default_options true [] _ _)).
  - reflexivity.
  - reflexivity.
Defined.

(** C7 does not hold as stated: a run that finds no device reports nothing.
    It logs no message, and without [return_value] its value is the [None]
    that a run which erased the device returns as well. *)
Lemma run_no_device_reports_nothing :
  let missing := run (env_ok None) 1 default_options false [] in
  let erased :=
    run (env_ok (Some (device_of_size "0x0002"))) 1 default_options false [] in
  fst missing = Ret PyNone
  /\ logs (snd missing) = []
  /\ fst erased = fst missing
  /\ writes (snd erased) = [[192; 0; 0; 255]; [192; 0; 1; 255]].
Proof. vm_compute. repeat split. Qed.

(** ** The reset line *)

Lemma erase_run_raise_level dev evs e cur :
  erase_run dev evs (Raise e) ->
  In (EGpioStatus 0 None) evs ->
  reset_level_from cur evs = Some 0 /\ ~ In (EGpioStatus 1 None) evs.
Proof.
  intros Hrun Hin. remember (Raise e) as r eqn:Er.
  destruct Hrun as [e'|e'|e' Herr|size evs r r' Hsize Hsweep Hstop
                    |size evs v Hsize Hsweep
                    |size evs e' Hsize Hsweep|size evs Hsize Hsweep];
    try discriminate.
  - simpl in Hin. intuition discriminate.
  - split; [reflexivity|]. simpl. intuition discriminate.
  - split; [reflexivity|]. simpl. intuition discriminate.
  - apply sweep_run_quiet in Hsweep.
    rewrite reset_level_from_app, reset_level_from_quiet by exact Hsweep.
    split; [reflexivity|]. intros Hone.
    apply in_app_or in Hone as [Hone|Hone];
      [simpl in Hone; intuition discriminate|].
    destruct (not_gpio_In _ _ _ Hsweep Hone).
  - apply sweep_run_quiet in Hsweep.
    rewrite reset_level_from_app, reset_level_from_app,
      (reset_level_from_quiet _ evs) by exact Hsweep.
    split; [reflexivity|]. intros Hone.
    apply in_app_or in Hone as [Hone|Hone];
      [simpl in Hone; intuition discriminate|].
    apply in_app_or in Hone as [Hone|Hone];
      [|simpl in Hone; intuition discriminate].
    destruct (not_gpio_In _ _ _ Hsweep Hone).
Qed.

(** C1, as the code has it: a run of [erase] that returns [True] sets the
    reset line to 0 first and sets it back to 1 at its end, with no other
    call on the line in between, so it leaves the line at 1.  A run that an
    exception ends after the line was set to 0 never sets it back: it leaves
    the line at 0. *)
Theorem erase_reset_release
    (env : Env) (fuel : nat) (dev : device) (h evs : history)
    (r : outcome bool) :
  erase env fuel dev h = (r, h ++ evs) ->
  (r = Ret true ->
   exists mid,
     evs = EGpioStatus 0 None :: mid
             ++ [EGpioStatus 1 None;
                 ELog SUCCESS (MsgText "EEPROM memory successfully erased.")]
     /\ Forall (fun ev => is_gpio_status ev = false) mid
     /\ reset_level (h ++ evs) = Some 1)
  /\ (forall e,
         r = Raise e -> In (EGpioStatus 0 None) evs ->
         reset_level (h ++ evs) = Some 0 /\ ~ In (EGpioStatus 1 None) evs).
Proof.
  intros Herase.
  apply erase_run_sound in Herase as (evs' & Heq & Hrun).
  apply app_inv_head in Heq as <-. split.
  - intros ->.
    assert (exists size, eeprom_size dev = inr size) as [size Hsize].
    { inversion Hrun; eauto. }
    destruct (erase_run_success dev size evs Hrun Hsize) as (mid & -> & Hsweep).
    apply sweep_run_quiet in Hsweep.
    exists (tl session_begin ++ mid).
    split; [reflexivity|]. split.
    + apply Forall_app. split; [repeat constructor|exact Hsweep].
    + rewrite reset_level_app, !reset_level_from_app. reflexivity.
  - intros e -> Hin. rewrite reset_level_app.
    apply (erase_run_raise_level dev evs e _ Hrun Hin).
Qed.

Lemma erase_reset_release_witness :
  let evs := snd (erase (env_ok None) 1 (device_of_size "0x0002") []) in
  exists mid,
    evs = EGpioStatus 0 None :: mid
            ++ [EGpioStatus 1 None;
                ELog SUCCESS (MsgText "EEPROM memory successfully erased.")]
    /\ Forall (fun ev => is_gpio_status ev = false) mid
    /\ reset_level ([] ++ evs) = Some 1.
Proof.
  refine (proj1 (erase_reset_release (env_ok None) 1 (device_of_size "0x0002")
                   [] _ (Ret true) _) eq_refl).
  vm_compute. reflexivity.
Defined.

(** C1 does not hold as stated: when the adapter fails during the sweep, and
    when an address times out, [erase] ends with the reset line at 0. *)
Lemma erase_exits_with_reset_asserted :
  (let run := erase (env_unplugged None) 4 (device_of_size "0x0200") [] in
   fst run = Raise (OtherException "SerialException")
   /\ hd_error (snd run) = Some (EGpioStatus 0 None)
   /\ reset_level (snd run) = Some 0)
  /\ (let run := erase (env_stuck None 80) 4 (device_of_size "0x0200") [] in
      fst run = Ret false
      /\ hd_error (snd run) = Some (EGpioStatus 0 None)
      /\ reset_level (snd run) = Some 0).
Proof. vm_compute. repeat split. Qed.

(** ** Sizes beyond the 16-bit address *)

Lemma range0_at (n a : Z) :
  0 <= a < n -> exists rest, range0 n = range0 a ++ a :: rest.
Proof.
  intros Ha. unfold range0.
  replace (Z.to_nat n) with (Z.to_nat a + S (Z.to_nat (n - a - 1)))%nat by lia.
  rewrite seq_app, map_app. cbn [seq map Nat.add].
  rewrite Z2Nat.id by lia. eexists. reflexivity.
Qed.

Lemma erase_sweep_app env fuel addrs1 addrs2 h :
  erase_sweep env fuel (addrs1 ++ addrs2) h
  = match erase_sweep env fuel addrs1 h with
    | (Ret None, h1) => erase_sweep env fuel addrs2 h1
    | stop => stop
    end.
Proof.
  revert h. induction addrs1 as [|addr addrs1 IH]; intros h; [reflexivity|].
  cbn [app erase_sweep]. unfold bind.
  destruct (lift (struct_pack_H addr) h) as [[frame|e|] h1]; try reflexivity.
  destruct (spi_transmit env (write_cmd ++ frame ++ [255]) h1)
    as [[[]|e|] h2]; try reflexivity.
  destruct (wait_poll_eeprom env fuel 255 addr h2) as [[[|]|e|] h3];
    try reflexivity.
  apply IH.
Qed.

Lemma erase_sweep_cooperative_trace env fuel addrs h :
  (forall h' data, env_transmit env h' data = None) ->
  (forall h', exists rest, env_receive env h' 1 = inr (255 :: rest)) ->
  (0 < fuel)%nat ->
  Forall in_range addrs ->
  exists evs,
    erase_sweep env fuel addrs h = (Ret None, h ++ evs)
    /\ spi_sent evs
       = concat (map (fun addr => [write_frame addr; read_frame addr]) addrs).
Proof.
  intros Htx Hrx Hfuel Haddrs. revert h.
  induction Haddrs as [|addr addrs Haddr _ IH]; intros h.
  - exists []. rewrite app_nil_r. split; reflexivity.
  - destruct fuel as [|fuel]; [lia|].
    cbn [erase_sweep]. unfold wait_poll_eeprom. cbn [poll_loop].
    unfold bind, lift, ret, spi_transmit, call, spi_receive, time_time.
    rewrite (struct_pack_H_in_range addr Haddr), !Htx.
    destruct (Hrx ((h ++ [ETransmit (write_cmd ++ [addr / 256; addr mod 256] ++ [255]) None])
                     ++ [ETime (env_time env (h ++ [ETransmit (write_cmd ++ [addr / 256; addr mod 256] ++ [255]) None]))]
                     ++ [ETransmit (read_cmd ++ [addr / 256; addr mod 256]) None]))
      as [rest Hrest].
    rewrite <- app_assoc in Hrest.
    rewrite <- ?app_assoc. cbn [app] in *. rewrite Hrest. cbn.
    match goal with
    | |- exists evs, erase_sweep _ _ _ ?h1 = _ /\ _ =>
        destruct (IH h1) as (evs & Hevs & Hsent)
    end.
    rewrite Hevs. eexists (_ :: _ :: _ :: _ :: evs).
    split; [rewrite <- app_assoc; reflexivity|].
    cbn [spi_sent map concat app]. rewrite Hsent. reflexivity.
Qed.

(** C9: for a device whose [eeprom_size] is larger than [0x10000], [erase]
    never returns [True].  When the sweep of the addresses 0 to 65535
    completes, with a write command for each of them, the sweep of the whole
    range raises [struct.error] at address 65536, before any further call.
    And no check of the size comes before the sweep: in every run that gets
    through its first five calls, the next call is the write command for
    address 0.  So, when every call succeeds and every read-back is [0xFF],
    [erase] begins the session, transmits one write and one read command for
    each address from 0 to 65535, and then raises [struct.error]. *)
Theorem erase_oversized
    (env : Env) (fuel : nat) (dev : device) (size : Z) (h : history) :
  eeprom_size dev = inr size ->
  65536 < size ->
  fst (erase env fuel dev h) <> Ret true
  /\ (forall h1 h2,
        erase_sweep env fuel (range0 65536) h1 = (Ret None, h2) ->
        erase_sweep env fuel (range0 size) h1 = (Raise StructError, h2)
        /\ exists evs,
             h2 = h1 ++ evs /\ writes evs = map write_frame (range0 65536))
  /\ (exists evs,
        snd (erase env fuel dev h) = h ++ evs
        /\ forall rest,
             evs = session_begin ++ rest ->
             exists r0 rest', rest = ETransmit [192; 0; 0; 255] r0 :: rest')
  /\ ((forall h' v, env_gpio_status env h' v = None) ->
      (forall h' data, env_transmit env h' data = None) ->
      (forall h', exists rest, env_receive env h' 1 = inr (255 :: rest)) ->
      (0 < fuel)%nat ->
      exists sweep,
        erase env fuel dev h
        = (Raise StructError, h ++ session_begin ++ sweep)
        /\ spi_sent sweep
           = concat (map (fun addr => [write_frame addr; read_frame addr])
                         (range0 65536))
        /\ writes sweep = map write_frame (range0 65536)).
Proof.
  intros Hsize Hbig.
  assert (Hcoop :
            (forall h' v, env_gpio_status env h' v = None) ->
            (forall h' data, env_transmit env h' data = None) ->
            (forall h', exists rest, env_receive env h' 1 = inr (255 :: rest)) ->
            (0 < fuel)%nat ->
            exists sweep,
              erase env fuel dev h
              = (Raise StructError, h ++ session_begin ++ sweep)
              /\ spi_sent sweep
                 = concat (map (fun addr => [write_frame addr; read_frame addr])
                               (range0 65536))
              /\ writes sweep = map write_frame (range0 65536)).
  { intros Hgpio Htx Hrx Hfuel.
    assert (Hrange : Forall in_range (range0 65536)).
    { apply Forall_forall. intros addr Haddr.
      apply list_elem_of_In, range0_In in Haddr. unfold in_range. lia. }
    destruct (erase_sweep_cooperative_trace env fuel (range0 65536)
                (h ++ session_begin) Htx Hrx Hfuel Hrange)
      as (sweep & Hsweep & Hsent).
    exists sweep. split; [|split; [exact Hsent|]].
    - destruct (range0_at size 65536 ltac:(lia)) as [rest Hrest].
      unfold erase, gpio_set_status, spi_transmit, call, logger_handle,
        time_sleep, lift, raise, ret, bind.
      rewrite Hgpio. cbn [negb]. rewrite Htx. cbn [negb].
      unfold eeprom_size in Hsize.
      destruct (getitem dev "eeprom_size") as [e|s]; [discriminate|].
      rewrite Hsize. cbn [negb]. rewrite <- !app_assoc. cbn [app].
      change (h ++ session_begin)
        with (h ++ [EGpioStatus 0 None;
                    ELog INFO (MsgText "Enabling Memory Access...");
                    ETransmit enable_mem_access_cmd None; ESleep 0.5%float;
                    ELog INFO
                      (MsgText "Erasing the EEPROM memory (Write 0xFF)...")])
        in Hsweep.
      rewrite Hrest, erase_sweep_app, Hsweep. cbn [erase_sweep].
      unfold bind, lift, raise.
      replace (struct_pack_H 65536) with (@inl exn bytes StructError)
        by reflexivity.
      rewrite <- !app_assoc. reflexivity.
    - apply erase_sweep_run in Hsweep as (evs & Heq & Hrun).
      apply app_inv_head in Heq as <-.
      apply sweep_run_done in Hrun as (Hw & _). exact Hw. }
  destruct (erase env fuel dev h) as [r h'] eqn:Herase.
  apply erase_run_sound in Herase as (evs & -> & Hrun).
  cbn [fst snd]. split; [|split; [intros h1 h2 Hfit; split|split; [|exact Hcoop]]].
  - intros ->.
    destruct (erase_run_success dev size evs Hrun Hsize) as (mid & _ & Hsweep).
    apply sweep_run_done in Hsweep as (_ & Hrange & _).
    rewrite Forall_forall in Hrange.
    assert (Hin : In 65536 (range0 size)) by (apply range0_In; lia).
    apply list_elem_of_In, Hrange in Hin. unfold in_range in Hin. lia.
  - destruct (range0_at size 65536 ltac:(lia)) as [rest ->].
    rewrite erase_sweep_app, Hfit. reflexivity.
  - apply erase_sweep_run in Hfit as (evs' & -> & Hsweep).
    apply sweep_run_done in Hsweep as (Hw & _).
    exists evs'. split; [reflexivity|exact Hw].
  - exists evs. split; [reflexivity|]. intros rest ->.
    destruct (range0_at size 0 ltac:(lia)) as [tail Htail].
    change (range0 0 ++ 0 :: tail) with (0 :: tail) in Htail.
    assert (Hfirst : forall evs0 r0,
               sweep_run (range0 size) evs0 r0 ->
               exists r1 rest', evs0 = ETransmit [192; 0; 0; 255] r1 :: rest').
    { intros evs0 r0 Hsweep. rewrite Htail in Hsweep.
      inversion Hsweep; subst; try (eexists; eexists; reflexivity).
      unfold in_range in *. lia. }
    remember (session_begin ++ rest) as evs eqn:Hevs.
    destruct Hrun as [e|e|e Herr|size' evs r r' Hsize' Hsweep Hstop
                      |size' evs v Hsize' Hsweep
                      |size' evs e Hsize' Hsweep|size' evs Hsize' Hsweep];
      try discriminate; try congruence;
      assert (size' = size) as -> by congruence;
      apply app_inv_head in Hevs as <-;
      destruct (Hfirst _ _ Hsweep) as (r1 & rest' & ->);
      eexists; eexists; reflexivity.
Qed.

Lemma erase_oversized_witness :
  fst (erase (env_ok None) 1 (device_of_size "0x10001") []) <> Ret true
  /\ exists sweep,
       erase (env_ok None) 1 (device_of_size "0x10001") []
       = (Raise StructError, [] ++ session_begin ++ sweep)
       /\ spi_sent sweep
          = concat (map (fun addr => [write_frame addr; read_frame addr])
                        (range0 65536))
       /\ writes sweep = map write_frame (range0 65536).
Proof.
  assert (Hsize : eeprom_size (device_of_size "0x10001") = inr 65537)
    by (vm_compute; reflexivity).
  destruct (erase_oversized (env_ok None) 1 (device_of_size "0x10001")
              65537 [] Hsize ltac:(lia)) as (Hnever & _ & _ & Hraise).
  split; [exact Hnever|].
  apply Hraise.
  - reflexivity.
  - reflexivity.
  - intros h'. exists []. reflexivity.
  - lia.
Defined.

(** ** What [run] returns *)

Lemma sweep_run_no_resolver addrs evs r b l bd dev :
  sweep_run addrs evs r -> ~ In (EDeviceId b l bd dev) evs.
Proof.
  assert (Hwait : forall byte addr pevs rp,
             wait_run byte addr pevs rp -> ~ In (EDeviceId b l bd dev) pevs).
  { intros byte addr pevs rp [t evs' r' Hrun] [Hin|Hin]; [discriminate|].
    apply poll_run_calls in Hrun. rewrite Forall_forall in Hrun.
    apply list_elem_of_In, Hrun in Hin. exact Hin. }
  induction 1 as [|addr rest pevs evs r _ Hw _ IH|addr rest pevs _ Hw
                  | | |addr rest pevs r r' _ Hw _];
    simpl; intros Hin.
  - exact Hin.
  - destruct Hin as [Hin|Hin]; [discriminate|].
    apply in_app_or in Hin as [Hin|Hin]; [eapply Hwait; eauto|auto].
  - destruct Hin as [Hin|Hin]; [discriminate|].
    apply in_app_or in Hin as [Hin|Hin]; [eapply Hwait; eauto|].
    simpl in Hin. intuition discriminate.
  - exact Hin.
  - intuition discriminate.
  - destruct Hin as [Hin|Hin]; [discriminate|]. eapply Hwait; eauto.
Qed.


Lemma error_report_not_sweep_log err k :
  error_report err <> ELog ERROR (MsgTooLong k).
Proof. unfold error_report. destruct (is_ValueError err); discriminate. Qed.


Lemma erase_run_no_resolver dev evs r b l bd d :
  erase_run dev evs r -> ~ In (EDeviceId b l bd d) evs.
Proof.
  intros Hrun Hin.
  destruct Hrun;
    repeat match goal with
           | H : In _ (_ ++ _) |- _ => apply in_app_or in H as [H|H]
           | H : In _ ?l, S : sweep_run _ ?l _ |- _ =>
               exact (sweep_run_no_resolver _ _ _ _ _ _ _ S H)
           end;
    simpl in Hin; intuition discriminate.
Qed.

Lemma erase_run_timeout_result dev evs r k :
  erase_run dev evs r -> In (ELog ERROR (MsgTooLong k)) evs -> r = Ret false.
Proof.
  intros Hrun Hin. destruct (eeprom_size dev) as [e|size] eqn:Hsize.
  - destruct Hrun; try congruence; simpl in Hin; intuition discriminate.
  - apply (erase_run_timeout dev size evs r k Hrun Hsize Hin).
Qed.



Lemma erase_run_writes_NoDup dev evs r :
  erase_run dev evs r -> List.NoDup (writes evs).
Proof.
  assert (Hsweep : forall size evs0 r0,
             sweep_run (range0 size) evs0 r0 -> List.NoDup (writes evs0)).
  { intros size evs0 r0 Hrun.
    apply sweep_run_writes in Hrun as (done & todo & Hrange & -> & _).
    apply Finite.Injective_map_NoDup.
    - intros a b. apply write_frame_inj.
    - pose proof (range0_NoDup size) as Hnd. rewrite Hrange in Hnd.
      apply NoDup_app_remove_r in Hnd. exact Hnd. }
  intros Hrun.
  destruct Hrun as [e|e|e Herr|size evs r r' Hsize Hsw Hstop
                    |size evs v Hsize Hsw
                    |size evs e Hsize Hsw|size evs Hsize Hsw];
    try (cbn; constructor);
    rewrite ?writes_app; cbn [writes spi_sent session_begin session_end filter
                              enable_mem_access_cmd starts_with Z.eqb
                              Pos.eqb app];
    rewrite ?app_nil_r; eapply Hsweep; eauto.
Qed.

(** *** [process] *)

Lemma process_run_timeout opts evs r k :
  process_run opts evs r -> In (ELog ERROR (MsgTooLong k)) evs ->
  r = Ret (PyBool false).
Proof.
  intros Hrun Hin.
  destruct Hrun as [e| |dev e|dev e|dev e|dev evs r r' Herase Hstop
                    |dev evs b Herase];
    try (simpl in Hin; intuition discriminate);
    (apply in_app_or in Hin as [Hin|Hin];
     [simpl in Hin; intuition discriminate|]);
    apply (erase_run_timeout_result _ _ _ _ Herase) in Hin.
  - subst r. destruct r'; contradiction.
  - injection Hin as ->. reflexivity.
Qed.


Lemma process_run_no_device opts evs r b l bd :
  process_run opts evs r -> In (EDeviceId b l bd (inr None)) evs ->
  r = Ret PyNone /\ Forall (fun ev => is_log ev = false) evs.
Proof.
  intros Hrun Hin.
  destruct Hrun as [e| |dev e|dev e|dev e|dev evs r r' Herase Hstop
                    |dev evs v Herase];
    try (simpl in Hin; intuition discriminate).
  - split; [reflexivity|repeat constructor].
  - apply in_app_or in Hin as [Hin|Hin];
      [simpl in Hin; intuition discriminate|].
    destruct (erase_run_no_resolver _ _ _ _ _ _ _ Herase Hin).
  - apply in_app_or in Hin as [Hin|Hin];
      [simpl in Hin; intuition discriminate|].
    destruct (erase_run_no_resolver _ _ _ _ _ _ _ Herase Hin).
Qed.



Lemma process_run_writes_NoDup opts evs r :
  process_run opts evs r -> List.NoDup (writes evs).
Proof.
  intros Hrun.
  destruct Hrun as [e| |dev e|dev e|dev e|dev evs r r' Herase Hstop
                    |dev evs v Herase];
    try (cbn; constructor);
    rewrite writes_app; apply (erase_run_writes_NoDup _ _ _ Herase).
Qed.

(** ** The values of [run] *)



(** C8, as the code has it: the caller of [run] gets a bare value and the
    details go to the logger.  A timeout makes [run] return [False] (with
    [return_value=True]; [None] otherwise), the address being named in the
    logged message only.  An exception raised in [process] is caught by
    [run], which logs it as its last call and returns [None].  When no
    device is found, [run] returns [None] and logs nothing.  Nothing is
    tried again: no write command is transmitted twice. *)
Theorem run_failure_report
    (env : Env) (fuel : nat) (opts : Options) (return_value : bool)
    (h evs : history) (r : outcome pyval) :
  run env fuel opts return_value h = (r, h ++ evs) ->
  (forall k,
      In (ELog ERROR (MsgTooLong k)) evs ->
      r = Ret (if return_value then PyBool false else PyNone))
  /\ (forall err hp,
         env_connect env h = true ->
         process env fuel opts (h ++ [EConnect true]) = (Raise err, hp) ->
         r = Ret PyNone /\ h ++ evs = hp ++ [error_report err])
  /\ (forall b l bd,
         In (EDeviceId b l bd (inr None)) evs ->
         r = Ret PyNone /\ Forall (fun ev => is_log ev = false) evs)
  /\ List.NoDup (writes evs).
Proof.
  intros Hrun. split; [|split; [|split]].
  - intros k Hin.
    apply run_run_sound in Hrun as (evs' & Heq & Hrun).
    apply app_inv_head in Heq as <-.
    destruct Hrun as [|pevs status Hproc|pevs err Hproc|pevs Hproc];
      try (destruct Hin as [Hin|Hin]; [discriminate|]).
    + destruct Hin.
    + injection (process_run_timeout _ _ _ _ Hproc Hin) as ->. reflexivity.
    + apply in_app_or in Hin as [Hin|Hin].
      * apply (process_run_timeout _ _ _ _ Hproc) in Hin. discriminate.
      * destruct Hin as [Hin|[]].
        destruct (error_report_not_sweep_log _ _ Hin).
    + apply (process_run_timeout _ _ _ _ Hproc) in Hin. discriminate.
  - intros err hp Hconn Hproc. revert Hrun.
    unfold run, connect, try_except, logger_handle, ret, bind.
    rewrite Hconn. simpl. rewrite Hproc. unfold error_report.
    destruct (is_ValueError err); intros ?; simplify_eq;
      (split; [reflexivity|symmetry; assumption]).
  - intros b l bd Hin.
    apply run_run_sound in Hrun as (evs' & Heq & Hrun).
    apply app_inv_head in Heq as <-.
    destruct Hrun as [|pevs status Hproc|pevs err Hproc|pevs Hproc];
      try (destruct Hin as [Hin|Hin]; [discriminate|]).
    + simpl in Hin. intuition discriminate.
    + apply (process_run_no_device _ _ _ _ _ _ Hproc) in Hin as [[= ->] Hlog].
      split; [destruct return_value; reflexivity|].
      constructor; [reflexivity|exact Hlog].
    + apply in_app_or in Hin as [Hin|Hin].
      * apply (process_run_no_device _ _ _ _ _ _ Hproc) in Hin as [[=] _].
      * unfold error_report in Hin. simpl in Hin.
        destruct (is_ValueError err); intuition discriminate.
    + apply (process_run_no_device _ _ _ _ _ _ Hproc) in Hin as [[=] _].
  - apply run_run_sound in Hrun as (evs' & Heq & Hrun).
    apply app_inv_head in Heq as <-.
    destruct Hrun as [|pevs status Hproc|pevs err Hproc|pevs Hproc].
    + constructor.
    + apply (process_run_writes_NoDup _ _ _ Hproc).
    + change (EConnect true :: pevs ++ [error_report err])
        with ([EConnect true] ++ pevs ++ [error_report err]).
      rewrite !writes_app. unfold error_report.
      cbn. rewrite app_nil_r. apply (process_run_writes_NoDup _ _ _ Hproc).
    + apply (process_run_writes_NoDup _ _ _ Hproc).
Qed.

Lemma run_failure_report_witness :
  let out := run (env_unplugged (Some (device_of_size "0x0004"))) 4
                 default_options true [] in
  fst out = Ret PyNone
  /\ [] ++ snd out
     = snd (process (env_unplugged (Some (device_of_size "0x0004"))) 4
              default_options ([] ++ [EConnect true]))
         ++ [error_report (OtherException "SerialException")].
Proof.
  intros out.
  refine (proj1 (proj2
            (run_failure_report (env_unplugged (Some (device_of_size "0x0004")))
               4 default_options true [] (snd out) (fst out) _))
            (OtherException "SerialException") _ _ _).
  - vm_compute. reflexivity.
  - reflexivity.
  - vm_compute. reflexivity.
Defined.

(** C8 does not hold as stated: the value that [run] hands to its caller is
    the same for a missing device and for a failing adapter, and the same
    whichever address timed out; without [return_value] it is [None] on a
    timeout as well; and a missing device leaves no message in the log. *)
Lemma run_failures_not_told_apart :
  let dev := Some (device_of_size "0x0200") in
  fst (run (env_ok None) 4 default_options true []) = Ret PyNone
  /\ Forall (fun ev => is_log ev = false)
       (snd (run (env_ok None) 4 default_options true []))
  /\ fst (run (env_unplugged dev) 4 default_options true []) = Ret PyNone
  /\ fst (run (env_stuck dev 0) 4 default_options true [])
     = Ret (PyBool false)
  /\ fst (run (env_stuck dev 80) 4 default_options true [])
     = Ret (PyBool false)
  /\ fst (run (env_stuck dev 80) 4 default_options false []) = Ret PyNone.
Proof.
  vm_compute. repeat split; repeat constructor.
Qed.

(** * Further properties of the module *)

(** ** [wait_poll_eeprom] *)

Lemma gpio_calls_quiet (evs : list event) :
  Forall (fun ev => is_gpio_status ev = false) evs -> gpio_calls evs = [].
Proof.
  induction 1 as [|ev evs Hev _ IH]; [reflexivity|].
  unfold gpio_calls in *. simpl. rewrite Hev. exact IH.
Qed.

Lemma logs_silent (evs : list event) :
  Forall (fun ev => is_log ev = false) evs -> logs evs = [].
Proof.
  induction 1 as [|ev evs Hev _ IH]; [reflexivity|].
  unfold logs in *. simpl. rewrite Hev. exact IH.
Qed.

(** X1: whatever its result, a call of [wait_poll_eeprom] starts by reading
    the clock, every frame it transmits is the read command for its address,
    and it makes no call on the reset line, transmits no write command and
    logs nothing. *)
Theorem wait_poll_only_reads
    (env : Env) (fuel : nat) (byte addr : Z) (h : history) :
  exists evs,
    snd (wait_poll_eeprom env fuel byte addr h)
    = h ++ ETime (env_time env h) :: evs
    /\ Forall (fun data => data = [160; addr / 256; addr mod 256])
              (spi_sent evs)
    /\ writes evs = []
    /\ gpio_calls evs = []
    /\ logs evs = [].
Proof.
  unfold wait_poll_eeprom, bind, time_time.
  destruct (poll_loop env fuel _ byte addr _) as [r h'] eqn:Hloop.
  apply poll_loop_run in Hloop as (evs & -> & Hrun).
  apply poll_run_calls, poll_call_facts in Hrun as (Hw & Hg & Hl & Hs).
  exists evs. rewrite <- app_assoc. repeat split; try assumption.
  - apply gpio_calls_quiet, Hg.
  - apply logs_silent, Hl.
Qed.

Lemma poll_run_counts timeout byte addr evs b :
  poll_run timeout byte addr evs (Ret b) ->
  length (reads evs)
  = (length (clock_readings evs) + if b then 1 else 0)%nat
  /\ Forall (fun t => float_gt t timeout = false)
            (if b then clock_readings evs
             else removelast (clock_readings evs)).
Proof.
  intros Hrun. remember (Ret b) as r eqn:Er.
  induction Hrun as [rest|b' rest t Hb Ht|b' rest t evs r Hb Ht Hrun IH
                     |evs r Hr _].
  - injection Er as <-. split; [reflexivity|constructor].
  - injection Er as <-. split; [reflexivity|constructor].
  - destruct (IH Er) as [IHn IHt]. split.
    + change (reads (ETransmit (read_frame addr) None
                       :: EReceive 1 (inr (b' :: rest)) :: ETime t :: evs))
        with (read_frame addr :: reads evs).
      cbn [clock_readings length]. rewrite IHn. reflexivity.
    + cbn [clock_readings]. destruct b; [constructor; assumption|].
      destruct (clock_readings evs) as [|t' ts] eqn:Ets.
      * exfalso. subst r. apply poll_run_reads in Hrun.
        cbn [length Nat.add] in IHn. lia.
      * cbn [removelast]. constructor; assumption.
  - subst r. destruct (Hr b). reflexivity.
Qed.

(** X2: a call of [wait_poll_eeprom] that returns has transmitted one read
    command per clock reading when it returns [True] (the one that set the
    deadline, then one per failed attempt), and one fewer when it returns
    [False]; it returns [True] on a read-back that starts with the expected
    byte; and every reading of the loop that did not end the call was not
    greater than the deadline, the float sum of the first reading and 10. *)
Theorem wait_poll_attempts
    (env : Env) (fuel : nat) (byte addr : Z) (h evs : history) (b : bool) :
  wait_poll_eeprom env fuel byte addr h = (Ret b, h ++ evs) ->
  in_range addr
  /\ (length (reads evs) + (if b then 0 else 1))%nat
     = length (clock_readings evs)
  /\ hd_error evs = Some (ETime (env_time env h))
  /\ Forall (fun t => float_gt t (env_time env h + 10)%float = false)
            (tl (if b then clock_readings evs
                 else removelast (clock_readings evs)))
  /\ (b = true ->
      exists pre rest,
        evs = pre ++ [ETransmit (read_frame addr) None;
                      EReceive 1 (inr (byte :: rest))]).
Proof.
  unfold wait_poll_eeprom, bind, time_time. intros Hloop.
  assert (Haddr : in_range addr).
  { destruct fuel as [|fuel]; [discriminate|]. revert Hloop. cbn [poll_loop].
    unfold bind, lift, raise.
    destruct (struct_pack_H addr) as [e|frame] eqn:Epack; [discriminate|].
    intros _. apply (struct_pack_H_ok _ _ Epack). }
  apply poll_loop_run in Hloop as (pevs & Heq & Hrun).
  rewrite <- app_assoc in Heq. apply app_inv_head in Heq as ->.
  cbn [app]. destruct (poll_run_counts _ _ _ _ _ Hrun) as [Hn Ht].
  split; [exact Haddr|]. split; [|split; [reflexivity|split]].
  - change (reads (ETime (env_time env h) :: pevs)) with (reads pevs).
    cbn [clock_readings length]. rewrite Hn. destruct b; lia.
  - assert (Htail : tl (if b then clock_readings (ETime (env_time env h) :: pevs)
                        else removelast (clock_readings (ETime (env_time env h) :: pevs)))
                    = if b then clock_readings pevs
                      else removelast (clock_readings pevs)).
    { destruct b; [reflexivity|]. cbn [clock_readings removelast].
      destruct (clock_readings pevs) eqn:Ec; [|reflexivity].
      exfalso. apply poll_run_reads in Hrun. cbn [length Nat.add] in Hn.
      lia. }
    rewrite Htail.
    exact Ht.
  - intros ->. apply poll_run_true in Hrun as (pre & rest & ->).
    exists (ETime (env_time env h) :: pre), rest. reflexivity.
Qed.

Lemma wait_poll_attempts_witness :
  let evs := snd (wait_poll_eeprom (env_stuck None 7) 9 255 7 []) in
  in_range 7
  /\ (length (reads evs) + 1)%nat = length (clock_readings evs)
  /\ hd_error evs = Some (ETime 0%float)
  /\ Forall (fun t => float_gt t (0 + 10)%float = false)
            (tl (removelast (clock_readings evs)))
  /\ (false = true ->
      exists pre rest,
        evs = pre ++ [ETransmit (read_frame 7) None;
                      EReceive 1 (inr (255 :: rest))]).
Proof.
  apply (wait_poll_attempts (env_stuck None 7) 9 255 7 [] _ false).
  vm_compute. reflexivity.
Defined.

(** X3: for an address that does not fit 16 bits, [wait_poll_eeprom] raises
    [struct.error] when it builds its first read command: it has read the
    clock and made no call on the SPI interface. *)
Theorem wait_poll_address_overflow
    (env : Env) (fuel : nat) (byte addr : Z) (h : history) :
  addr < 0 \/ 65535 < addr ->
  wait_poll_eeprom env (S fuel) byte addr h
  = (Raise StructError, h ++ [ETime (env_time env h)]).
Proof.
  intros Haddr. unfold wait_poll_eeprom, bind, time_time. cbn [poll_loop].
  unfold bind, lift, raise.
  destruct (struct_pack_H addr) as [e|frame] eqn:Epack.
  - apply struct_pack_H_error in Epack as [-> _]. reflexivity.
  - apply struct_pack_H_ok in Epack as [Hin _]. unfold in_range in Hin. lia.
Qed.

Lemma wait_poll_address_overflow_witness :
  wait_poll_eeprom (env_ok None) 1 255 65536 []
  = (Raise StructError, [] ++ [ETime 0%float]).
Proof.
  apply (wait_poll_address_overflow (env_ok None) 0 255 65536 []). lia.
Defined.

(** X4: when [receive] returns no byte, indexing the answer raises
    [IndexError]: [wait_poll_eeprom] ends there, without reading the clock
    again. *)
Theorem wait_poll_empty_answer
    (env : Env) (fuel : nat) (byte addr : Z) (h : history) :
  in_range addr ->
  env_transmit env (h ++ [ETime (env_time env h)]) (read_frame addr) = None ->
  env_receive env
    (h ++ [ETime (env_time env h); ETransmit (read_frame addr) None]) 1
  = inr [] ->
  wait_poll_eeprom env (S fuel) byte addr h
  = (Raise IndexError,
     h ++ [ETime (env_time env h); ETransmit (read_frame addr) None;
           EReceive 1 (inr [])]).
Proof.
  intros Haddr Htx Hrx. unfold read_frame in *.
  unfold wait_poll_eeprom, bind, time_time. cbn [poll_loop].
  unfold bind, lift, raise, ret, spi_transmit, call, spi_receive.
  rewrite (struct_pack_H_in_range addr Haddr). cbn [app read_cmd].
  rewrite Htx. rewrite <- app_assoc. cbn [app]. rewrite Hrx.
  cbn. rewrite <- app_assoc. reflexivity.
Qed.

Lemma wait_poll_empty_answer_witness :
  wait_poll_eeprom (env_mute None) 1 255 7 []
  = (Raise IndexError,
     [] ++ [ETime 0%float; ETransmit (read_frame 7) None;
            EReceive 1 (inr [])]).
Proof.
  apply (wait_poll_empty_answer (env_mute None) 0 255 7 []).
  - unfold in_range. lia.
  - reflexivity.
  - reflexivity.
Defined.

(** ** [erase] *)

Lemma sweep_run_nil evs r :
  sweep_run [] evs r -> evs = [] /\ r = Ret None.
Proof. inversion 1. split; reflexivity. Qed.

Lemma range0_nonpos (n : Z) : n <= 0 -> range0 n = [].
Proof.
  intros Hn. unfold range0. replace (Z.to_nat n) with 0%nat by lia. reflexivity.
Qed.

(** X5: for a device whose [eeprom_size] is zero or negative, the range of
    the sweep is empty: [erase] transmits no write and no read command, and
    it returns [True] after the five calls that begin the session and the
    two that end it, unless one of its calls on the reset line or the
    transmit of the programming-enable command raises.  It never returns
    [False]. *)
Theorem erase_empty_range
    (env : Env) (fuel : nat) (dev : device) (size : Z) (h evs : history)
    (r : outcome bool) :
  eeprom_size dev = inr size ->
  size <= 0 ->
  erase env fuel dev h = (r, h ++ evs) ->
  writes evs = [] /\ reads evs = []
  /\ ((r = Ret true /\ evs = session_begin ++ session_end)
      \/ exists e, r = Raise e /\ clean (removelast evs)
                   /\ option_map failed (last evs) = Some (Some e)).
Proof.
  intros Hsize Hneg Herase.
  apply erase_run_sound in Herase as (evs' & Heq & Hrun).
  apply app_inv_head in Heq as <-.
  destruct Hrun as [e|e|e Herr|size' evs r r' Hsize' Hsweep Hstop
                    |size' evs v Hsize' Hsweep
                    |size' evs e Hsize' Hsweep|size' evs Hsize' Hsweep];
    try congruence;
    try (assert (size' = size) as -> by congruence;
         rewrite (range0_nonpos size Hneg) in Hsweep;
         apply sweep_run_nil in Hsweep as [-> Hr]).
  - repeat split. right. exists e. repeat split; constructor.
  - repeat split. right. exists e. repeat split; repeat constructor.
  - subst r. destruct r'; contradiction.
  - discriminate.
  - repeat split. right. exists e. repeat split; repeat constructor.
  - repeat split. left. split; reflexivity.
Qed.

Lemma erase_empty_range_witness :
  let evs := snd (erase (env_ok None) 1 (device_of_size "-0x10") []) in
  writes evs = [] /\ reads evs = []
  /\ ((Ret true = Ret true /\ evs = session_begin ++ session_end)
      \/ exists e, Ret true = Raise e /\ clean (removelast evs)
                   /\ option_map failed (last evs) = Some (Some e)).
Proof.
  apply (erase_empty_range (env_ok None) 1 (device_of_size "-0x10") (-16) []).
  - vm_compute. reflexivity.
  - lia.
  - vm_compute. reflexivity.
Defined.



(** X7: a run of [erase] that returns [False] has set the reset line to 0
    and has made no other call on it: the line is at 0 when [erase]
    returns. *)
Theorem erase_false_reset
    (env : Env) (fuel : nat) (dev : device) (h evs : history) :
  erase env fuel dev h = (Ret false, h ++ evs) ->
  gpio_calls evs = [EGpioStatus 0 None]
  /\ reset_level (h ++ evs) = Some 0.
Proof.
  intros Herase.
  apply erase_run_sound in Herase as (evs' & Heq & Hrun).
  apply app_inv_head in Heq as <-.
  remember (Ret false) as r eqn:Er.
  destruct Hrun as [e|e|e Herr|size evs r r' Hsize Hsweep Hstop
                    |size evs v Hsize Hsweep
                    |size evs e Hsize Hsweep|size evs Hsize Hsweep];
    try discriminate.
  - apply stopped_not_Ret in Hstop as [_ Hr]. destruct (Hr false). exact Er.
  - apply sweep_run_quiet in Hsweep. split.
    + unfold gpio_calls. rewrite List.filter_app.
      change (List.filter is_gpio_status evs) with (gpio_calls evs).
      rewrite (gpio_calls_quiet _ Hsweep). reflexivity.
    + rewrite reset_level_app, reset_level_from_app,
        (reset_level_from_quiet _ evs Hsweep). reflexivity.
Qed.

Lemma erase_false_reset_witness :
  let evs := snd (erase (env_stuck None 2) 4 (device_of_size "0x4") []) in
  gpio_calls evs = [EGpioStatus 0 None]
  /\ reset_level ([] ++ evs) = Some 0.
Proof.
  apply (erase_false_reset (env_stuck None 2) 4 (device_of_size "0x4") []).
  vm_compute. reflexivity.
Defined.

Lemma logs_app (evs1 evs2 : list event) :
  logs (evs1 ++ evs2) = logs evs1 ++ logs evs2.
Proof. apply List.filter_app. Qed.

(** X8: what [erase] logs tells its result.  A run that returns [True] logs
    the two progress messages and then the success message; a run that
    returns [False] logs the two progress messages and then the error
    message of one address; a run that an exception ends logs no success and
    no error message. *)
Theorem erase_logs
    (env : Env) (fuel : nat) (dev : device) (h evs : history)
    (r : outcome bool) :
  erase env fuel dev h = (r, h ++ evs) ->
  let progress :=
    [ELog INFO (MsgText "Enabling Memory Access...");
     ELog INFO (MsgText "Erasing the EEPROM memory (Write 0xFF)...")] in
  match r with
  | Ret true =>
      logs evs = progress
                 ++ [ELog SUCCESS (MsgText "EEPROM memory successfully erased.")]
  | Ret false =>
      exists k, logs evs = progress ++ [ELog ERROR (MsgTooLong k)]
  | _ => logs evs = [] \/ logs evs = firstn 1 progress \/ logs evs = progress
  end.
Proof.
  intros Herase progress.
  apply erase_run_sound in Herase as (evs' & Heq & Hrun).
  apply app_inv_head in Heq as <-.
  destruct Hrun as [e|e|e Herr|size evs r r' Hsize Hsweep Hstop
                    |size evs v Hsize Hsweep
                    |size evs e Hsize Hsweep|size evs Hsize Hsweep].
  - left. reflexivity.
  - right. left. reflexivity.
  - right. right. reflexivity.
  - pose proof (stopped_not_Ret _ _ Hstop) as [Hr Hr'].
    apply sweep_run_silent in Hsweep;
      [|intros v ->; destruct (Hr (Some v)); reflexivity].
    assert (Hlogs : logs (session_begin ++ evs) = progress).
    { rewrite logs_app, (logs_silent _ Hsweep). reflexivity. }
    destruct r' as [b|e|]; [destruct (Hr' b); reflexivity| |];
      right; right; exact Hlogs.
  - apply sweep_run_returned in Hsweep
      as (-> & _ & k & _ & mid & _ & -> & Hmid & _).
    exists k. rewrite !logs_app, (logs_silent _ Hmid). reflexivity.
  - apply sweep_run_done in Hsweep as (_ & _ & _ & _ & Hlog).
    right. right. rewrite !logs_app, (logs_silent _ Hlog). reflexivity.
  - apply sweep_run_done in Hsweep as (_ & _ & _ & _ & Hlog).
    rewrite !logs_app, (logs_silent _ Hlog). reflexivity.
Qed.

Lemma erase_logs_witness :
  exists k,
    logs (snd (erase (env_stuck None 2) 4 (device_of_size "0x4") []))
    = [ELog INFO (MsgText "Enabling Memory Access...");
       ELog INFO (MsgText "Erasing the EEPROM memory (Write 0xFF)...")]
      ++ [ELog ERROR (MsgTooLong k)].
Proof.
  apply (erase_logs (env_stuck None 2) 4 (device_of_size "0x4") [] _ (Ret false)).
  vm_compute. reflexivity.
Defined.

(** ** [process] and [run] *)

(** X9: when no Octowire is connected, [run] returns [None] after
    [connect]: the resolver is not called, and nothing else is. *)
Theorem run_without_octowire
    (env : Env) (fuel : nat) (opts : Options) (return_value : bool)
    (h : history) :
  env_connect env h = false ->
  run env fuel opts return_value h = (Ret PyNone, h ++ [EConnect false]).
Proof.
  intros Hconn. unfold run, connect, ret, bind. rewrite Hconn. reflexivity.
Qed.

Lemma run_without_octowire_witness :
  run env_offline 1 default_options true []
  = (Ret PyNone, [] ++ [EConnect false]).
Proof.
  apply (run_without_octowire env_offline 1 default_options true []).
  reflexivity.
Defined.

(** X10: [run] lets no exception out: whatever the collaborators do after
    [connect], it does not end by raising.  And without [return_value] it
    returns nothing but [None], also when the erase succeeded. *)
Theorem run_never_raises
    (env : Env) (fuel : nat) (opts : Options) (return_value : bool)
    (h : history) :
  (forall e, fst (run env fuel opts return_value h) <> Raise e)
  /\ (forall v,
         fst (run env fuel opts false h) = Ret v -> v = PyNone).
Proof.
  split.
  - intros e.
    destruct (run env fuel opts return_value h) as [r h'] eqn:Hrun.
    apply run_run_sound in Hrun as (evs & _ & Hrun). cbn.
    destruct Hrun; discriminate.
  - intros v.
    destruct (run env fuel opts false h) as [r h'] eqn:Hrun.
    apply run_run_sound in Hrun as (evs & _ & Hrun). cbn.
    destruct Hrun; intros [= <-]; reflexivity.
Qed.

(** X11: [process] makes no call on the SPI interface and none on the reset
    line before the resolver has found a device; and it transmits and
    receives only after it has configured the interface with the bus and the
    baud rate of the options, set the pin of the options as an output and
    set the reset line to 1, in this order. *)
Theorem process_setup_first
    (env : Env) (fuel : nat) (opts : Options) (h : history) :
  exists evs,
    snd (process env fuel opts h) = h ++ evs
    /\ ((exists dev rest,
            evs = [EDeviceId (spi_bus opts) (reset_line opts)
                     (spi_baudrate opts) (inr (Some dev));
                   ESpiConfigure (spi_bus opts) (spi_baudrate opts) None;
                   EGpioDirection (reset_line opts) None;
                   EGpioStatus 1 None] ++ rest)
        \/ (spi_sent evs = []
            /\ Forall (fun ev => match ev with
                                 | EReceive _ _ => False
                                 | _ => True
                                 end) evs
            /\ (gpio_calls evs = []
                \/ exists e, fst (process env fuel opts h) = Raise e
                             /\ gpio_calls evs = [EGpioStatus 1 (Some e)]))).
Proof.
  destruct (process env fuel opts h) as [r h'] eqn:Hproc.
  apply process_run_sound in Hproc as (evs & -> & Hrun).
  exists evs. split; [reflexivity|]. cbn [fst].
  destruct Hrun as [e| |dev e|dev e|dev e|dev evs r r' Herase Hstop
                    |dev evs b Herase];
    try (left; exists dev, evs; reflexivity);
    right; (split; [reflexivity|]); (split; [repeat constructor|]);
    try (left; reflexivity).
  right. exists e. split; reflexivity.
Qed.

Lemma gpio_calls_app (evs1 evs2 : list event) :
  gpio_calls (evs1 ++ evs2) = gpio_calls evs1 ++ gpio_calls evs2.
Proof. apply List.filter_app. Qed.

(** X12: in a run of [process] that returns [True], the calls on the reset
    line are three: 1 before the session, 0 at its beginning and 1 at its
    end, none of them failing; the line is at 1 when [process] returns. *)
Theorem process_true_reset
    (env : Env) (fuel : nat) (opts : Options) (h evs : history) :
  process env fuel opts h = (Ret (PyBool true), h ++ evs) ->
  gpio_calls evs
  = [EGpioStatus 1 None; EGpioStatus 0 None; EGpioStatus 1 None]
  /\ reset_level (h ++ evs) = Some 1.
Proof.
  intros Hproc.
  apply process_run_sound in Hproc as (evs' & Heq & Hrun).
  apply app_inv_head in Heq as <-.
  remember (Ret (PyBool true)) as r eqn:Er.
  destruct Hrun as [e| |dev e|dev e|dev e|dev evs r r' Herase Hstop
                    |dev evs b Herase];
    try discriminate.
  - apply stopped_not_Ret in Hstop as [_ Hr]. destruct (Hr (PyBool true)).
    exact Er.
  - injection Er as ->.
    assert (exists size, eeprom_size dev = inr size) as [size Hsize].
    { inversion Herase; eauto. }
    destruct (erase_run_success dev size evs Herase Hsize)
      as (mid & -> & Hsweep).
    apply sweep_run_quiet in Hsweep. split.
    + rewrite !gpio_calls_app, (gpio_calls_quiet _ Hsweep). reflexivity.
    + rewrite reset_level_app, !reset_level_from_app. reflexivity.
Qed.

Lemma process_true_reset_witness :
  let evs := snd (process (env_ok (Some (device_of_size "0x0002"))) 1
                    default_options []) in
  gpio_calls evs
  = [EGpioStatus 1 None; EGpioStatus 0 None; EGpioStatus 1 None]
  /\ reset_level ([] ++ evs) = Some 1.
Proof.
  apply (process_true_reset (env_ok (Some (device_of_size "0x0002"))) 1
           default_options []).
  vm_compute. reflexivity.
Defined.

(** ** A run in which everything works *)

(** X13: when every call succeeds, every read-back is [0xFF] and the size of
    the device is at most [0x10000], [run] returns [True] (given
    [return_value]): after [connect], the resolver and the three calls that
    prepare the interface and the reset line, it makes the five calls that
    begin the session, transmits for each address in turn one write command
    followed by one read command, and ends with the release of the reset
    line and the success message. *)
Theorem run_cooperative
    (env : Env) (fuel : nat) (opts : Options) (dev : device) (size : Z)
    (h : history) :
  cooperative env dev ->
  eeprom_size dev = inr size ->
  size <= 65536 ->
  (0 < fuel)%nat ->
  exists sweep,
    run env fuel opts true h
    = (Ret (PyBool true),
       h ++ EConnect true :: process_begin opts dev
         ++ session_begin ++ sweep ++ session_end)
    /\ spi_sent sweep
       = concat (map (fun addr => [write_frame addr; read_frame addr])
                     (range0 size))
    /\ gpio_calls sweep = []
    /\ logs sweep = [].
Proof.
  intros (Hconn & Hdev & Hconf & Hdir & Hgpio & Htx & Hrx) Hsize Hbig Hfuel.
  assert (Hrange : Forall in_range (range0 size)).
  { apply Forall_forall. intros addr Haddr.
    apply list_elem_of_In, range0_In in Haddr. unfold in_range. lia. }
  destruct (erase_sweep_cooperative_trace env fuel (range0 size)
              (h ++ EConnect true :: process_begin opts dev ++ session_begin)
              Htx Hrx Hfuel Hrange) as (sweep & Hsweep & Hsent).
  exists sweep. split; [|split; [exact Hsent|]].
  - unfold run, connect, try_except, process, get_device_id, device_id_run,
      spi_configure, gpio_set_direction, erase, gpio_set_status,
      spi_transmit, call, logger_handle, time_sleep, lift, raise, ret, bind.
    rewrite Hconn. cbn [negb]. rewrite Hdev. cbn [negb].
    rewrite Hconf. cbn [negb]. rewrite Hdir. cbn [negb].
    rewrite Hgpio. cbn [negb]. rewrite Hgpio. cbn [negb].
    rewrite Htx. cbn [negb].
    unfold eeprom_size in Hsize.
    destruct (getitem dev "eeprom_size") as [e|s]; [discriminate|].
    rewrite Hsize. cbn [negb].
    rewrite <- !app_assoc. cbn [app].
    change (h ++ EConnect true :: process_begin opts dev ++ session_begin)
      with (h ++ [EConnect true;
                  EDeviceId (spi_bus opts) (reset_line opts)
                    (spi_baudrate opts) (inr (Some dev));
                  ESpiConfigure (spi_bus opts) (spi_baudrate opts) None;
                  EGpioDirection (reset_line opts) None;
                  EGpioStatus 1 None; EGpioStatus 0 None;
                  ELog INFO (MsgText "Enabling Memory Access...");
                  ETransmit enable_mem_access_cmd None; ESleep 0.5%float;
                  ELog INFO
                    (MsgText "Erasing the EEPROM memory (Write 0xFF)...")])
      in Hsweep.
    rewrite Hsweep, Hgpio. rewrite <- !app_assoc. reflexivity.
  - apply erase_sweep_run in Hsweep as (evs & Heq & Hrun).
    apply app_inv_head in Heq as <-. split.
    + apply gpio_calls_quiet, (sweep_run_quiet _ _ _ Hrun).
    + apply sweep_run_done in Hrun as (_ & _ & _ & _ & Hlog).
      apply logs_silent, Hlog.
Qed.

Lemma env_ok_cooperative (dev : device) : cooperative (env_ok (Some dev)) dev.
Proof.
  repeat split; intros; try reflexivity. exists []. reflexivity.
Qed.

Lemma run_cooperative_witness :
  exists sweep,
    run (env_ok (Some (device_of_size "0x0200"))) 1 default_options true []
    = (Ret (PyBool true),
       [] ++ EConnect true
          :: process_begin default_options (device_of_size "0x0200")
          ++ session_begin ++ sweep ++ session_end)
    /\ spi_sent sweep
       = concat (map (fun addr => [write_frame addr; read_frame addr])
                     (range0 512))
    /\ gpio_calls sweep = []
    /\ logs sweep = [].
Proof.
  apply (run_cooperative (env_ok (Some (device_of_size "0x0200"))) 1
           default_options (device_of_size "0x0200") 512 []).
  - apply env_ok_cooperative.
  - vm_compute. reflexivity.
  - lia.
  - lia.
Defined.

(** ** What goes over the wire *)

Lemma Forall_eq_repeat {A} (x : A) (l : list A) :
  Forall (fun y => y = x) l -> l = repeat x (length l).
Proof.
  induction 1 as [|y l -> _ IH]; [reflexivity|]. cbn. rewrite <- IH.
  reflexivity.
Qed.

Lemma range0_prefix (n : Z) (done todo : list Z) :
  range0 n = done ++ todo -> done = range0 (Z.of_nat (length done)).
Proof.
  destruct todo as [|k todo].
  - rewrite app_nil_r. intros <-. rewrite range0_length.
    unfold range0. rewrite !Nat2Z.id. reflexivity.
  - intros Hrange. apply range0_split in Hrange as [-> Hk].
    rewrite range0_length. rewrite Z2Nat.id by lia. reflexivity.
Qed.

Lemma reads_le_sent (evs : list event) :
  (length (reads evs) <= length (spi_sent evs))%nat.
Proof. unfold reads. apply length_filter. Qed.

Lemma sweep_run_frames addrs evs r :
  sweep_run addrs evs r ->
  exists done todo polls,
    addrs = done ++ todo
    /\ length polls = length done
    /\ Forall in_range done
    /\ spi_sent evs = concat (zip_with address_frames done polls)
    /\ (r = Ret None -> todo = [] /\ Forall (fun n => (1 <= n)%nat) polls).
Proof.
  assert (Hpoll : forall addr pevs rp,
             wait_run 255 addr pevs rp ->
             spi_sent pevs = repeat (read_frame addr) (length (spi_sent pevs))).
  { intros addr pevs rp Hwait.
    apply wait_run_facts in Hwait as (_ & _ & _ & Hs).
    apply Forall_eq_repeat, Hs. }
  induction 1 as [|addr rest pevs evs r Haddr Hwait _ IH
                  |addr rest pevs Haddr Hwait
                  |addr rest _|addr rest e Haddr
                  |addr rest pevs r r' Haddr Hwait Hstop].
  - exists [], [], [].
    refine (conj _ (conj _ (conj _ (conj _ _)))); try reflexivity.
    + constructor.
    + intros _. split; [reflexivity|constructor].
  - destruct IH as (done & todo & polls & -> & Hlen & Hrange & Hsent & Hdone).
    exists (addr :: done), todo, (length (spi_sent pevs) :: polls).
    refine (conj _ (conj _ (conj _ (conj _ _)))).
    + reflexivity.
    + cbn. rewrite Hlen. reflexivity.
    + constructor; assumption.
    + cbn [spi_sent zip_with concat address_frames app].
      rewrite spi_sent_app, Hsent. rewrite (Hpoll _ _ _ Hwait) at 1.
      reflexivity.
    + intros Hr. destruct (Hdone Hr) as [Htodo Hpolls].
      split; [exact Htodo|]. constructor; [|exact Hpolls].
      pose proof (wait_run_reads _ _ _ _ Hwait).
      pose proof (reads_le_sent pevs). lia.
  - exists [addr], rest, [length (spi_sent pevs)].
    refine (conj _ (conj _ (conj _ (conj _ _)))); try reflexivity;
      try discriminate.
    + constructor; [assumption|constructor].
    + cbn [spi_sent zip_with concat address_frames app].
      rewrite spi_sent_app. rewrite (Hpoll _ _ _ Hwait) at 1.
      cbn. rewrite !app_nil_r. reflexivity.
  - exists [], (addr :: rest), [].
    refine (conj _ (conj _ (conj _ (conj _ _)))); try reflexivity;
      try discriminate.
    constructor.
  - exists [addr], rest, [0%nat].
    refine (conj _ (conj _ (conj _ (conj _ _)))); try reflexivity;
      try discriminate.
    constructor; [assumption|constructor].
  - exists [addr], rest, [length (spi_sent pevs)].
    apply stopped_not_Ret in Hstop as [_ Hr'].
    refine (conj _ (conj _ (conj _ (conj _ _)))); try reflexivity.
    + constructor; [assumption|constructor].
    + cbn [spi_sent zip_with concat address_frames app].
      rewrite (Hpoll _ _ _ Hwait) at 1.
      rewrite app_nil_r. reflexivity.
    + intros ->. destruct (Hr' None). reflexivity.
Qed.

(** X14: what [erase] transmits, in every run.  Either its first call, the
    one that sets the reset line to 0, raised, which ends the run; or it has
    transmitted the programming-enable command and then, for the addresses
    0, 1, 2, ... in turn, the write command of the address followed by read
    commands of this same address only.  The addresses reached are below
    the size of the device and fit 16 bits; a run that returns [True] has
    reached every address below the size and has read each of them at least
    once. *)
Theorem erase_frames
    (env : Env) (fuel : nat) (dev : device) (size : Z) (h evs : history)
    (r : outcome bool) :
  eeprom_size dev = inr size ->
  erase env fuel dev h = (r, h ++ evs) ->
  (exists e, evs = [EGpioStatus 0 (Some e)] /\ r = Raise e)
  \/ exists polls,
       spi_sent evs = [172; 83; 0; 0] :: sweep_frames polls
       /\ Z.of_nat (length polls) <= Z.max 0 size
       /\ Z.of_nat (length polls) <= 65536
       /\ (r = Ret true ->
           Z.of_nat (length polls) = Z.max 0 size
           /\ Forall (fun n => (1 <= n)%nat) polls).
Proof.
  intros Hsize Herase.
  apply erase_run_sound in Herase as (evs' & Heq & Hrun).
  apply app_inv_head in Heq as <-.
  assert (Hsweep : forall evs0 r0,
             sweep_run (range0 size) evs0 r0 ->
             exists polls,
               spi_sent evs0 = sweep_frames polls
               /\ Z.of_nat (length polls) <= Z.max 0 size
               /\ Z.of_nat (length polls) <= 65536
               /\ (r0 = Ret None ->
                   Z.of_nat (length polls) = Z.max 0 size
                   /\ Forall (fun n => (1 <= n)%nat) polls)).
  { intros evs0 r0 Hrun0.
    apply sweep_run_frames in Hrun0
      as (done & todo & polls & Hrange & Hlen & Hin & Hsent & Hdone).
    pose proof (range0_prefix _ _ _ Hrange) as Hprefix.
    pose proof (f_equal (@length Z) Hrange) as Hlength.
    rewrite range0_length, length_app in Hlength.
    exists polls. unfold sweep_frames. rewrite Hlen, <- Hprefix.
    split; [exact Hsent|]. split; [lia|]. split.
    - destruct (Z.le_gt_cases (Z.of_nat (length done)) 65536) as [Hle|Hgt];
        [exact Hle|exfalso].
      assert (Hmem : In 65536 done).
      { rewrite Hprefix. apply range0_In. lia. }
      rewrite Forall_forall in Hin.
      apply list_elem_of_In, Hin in Hmem. unfold in_range in Hmem. lia.
    - intros Hr. destruct (Hdone Hr) as [-> Hpolls].
      split; [|exact Hpolls]. rewrite length_nil in Hlength. lia. }
  destruct Hrun as [e|e|e Herr|size' evs r r' Hsize' Hrun Hstop
                    |size' evs v Hsize' Hrun
                    |size' evs e Hsize' Hrun|size' evs Hsize' Hrun];
    try congruence;
    try (assert (size' = size) as -> by congruence;
         destruct (Hsweep _ _ Hrun) as (polls & Hsent & Hlen & Hmax & Hdone)).
  - left. exists e. split; reflexivity.
  - right. exists [].
    refine (conj _ (conj _ (conj _ _))); [reflexivity|cbn; lia|cbn; lia|].
    discriminate.
  - right. exists polls. rewrite spi_sent_app, Hsent.
    apply stopped_not_Ret in Hstop as [_ Hr'].
    refine (conj _ (conj Hlen (conj Hmax _))); [reflexivity|].
    intros ->. destruct (Hr' true). reflexivity.
  - right. exists polls. rewrite spi_sent_app, Hsent.
    apply sweep_run_returned in Hrun as [-> _].
    refine (conj _ (conj Hlen (conj Hmax _))); [reflexivity|discriminate].
  - right. exists polls. rewrite !spi_sent_app, Hsent.
    refine (conj _ (conj Hlen (conj Hmax _))); [|discriminate].
    cbn. rewrite app_nil_r. reflexivity.
  - right. exists polls. rewrite !spi_sent_app, Hsent.
    refine (conj _ (conj Hlen (conj Hmax _))); [|intros _; exact (Hdone eq_refl)].
    cbn. rewrite app_nil_r. reflexivity.
Qed.

Lemma erase_frames_witness :
  let evs := snd (erase (env_ok None) 1 (device_of_size "0x4") []) in
  exists polls,
    spi_sent evs = [172; 83; 0; 0] :: sweep_frames polls
    /\ Z.of_nat (length polls) <= Z.max 0 4
    /\ Z.of_nat (length polls) <= 65536
    /\ (Ret true = Ret true ->
        Z.of_nat (length polls) = Z.max 0 4
        /\ Forall (fun n => (1 <= n)%nat) polls).
Proof.
  intros evs.
  destruct (erase_frames (env_ok None) 1 (device_of_size "0x4") 4 []
              evs (Ret true)) as [(e & _ & Hr)|Hframes].
  - vm_compute. reflexivity.
  - vm_compute. reflexivity.
  - discriminate Hr.
  - exact Hframes.
Defined.

Lemma frame_bytes (addr : Z) :
  in_range addr ->
  Forall is_byte (write_frame addr) /\ Forall is_byte (read_frame addr).
Proof.
  unfold in_range, is_byte. intros Haddr.
  assert (0 <= addr / 256 <= 255).
  { split; [apply Z.div_pos; lia|].
    apply Z.lt_succ_r, Z.div_lt_upper_bound; lia. }
  pose proof (Z.mod_pos_bound addr 256 ltac:(lia)).
  split; repeat constructor; lia.
Qed.

(** X15: every frame that [erase] hands to [transmit] is made of bytes, its
    values lying between 0 and 255, and has three or four of them. *)
Theorem erase_transmits_bytes
    (env : Env) (fuel : nat) (dev : device) (h : history) :
  exists evs,
    snd (erase env fuel dev h) = h ++ evs
    /\ Forall (fun data =>
                 Forall is_byte data
                 /\ (length data = 3%nat \/ length data = 4%nat))
              (spi_sent evs).
Proof.
  destruct (erase env fuel dev h) as [r h'] eqn:Herase.
  apply erase_run_sound in Herase as (evs & -> & Hrun).
  exists evs. split; [reflexivity|].
  assert (Hframe : forall addr,
             in_range addr ->
             (Forall is_byte (write_frame addr)
              /\ (length (write_frame addr) = 3%nat
                  \/ length (write_frame addr) = 4%nat))
             /\ (Forall is_byte (read_frame addr)
                 /\ (length (read_frame addr) = 3%nat
                     \/ length (read_frame addr) = 4%nat))).
  { intros addr Haddr. destruct (frame_bytes addr Haddr) as [Hw Hr].
    split; (split; [assumption|]); [right|left]; reflexivity. }
  assert (Hwait : forall addr pevs rp,
             in_range addr -> wait_run 255 addr pevs rp ->
             Forall (fun data =>
                       Forall is_byte data
                       /\ (length data = 3%nat \/ length data = 4%nat))
                    (spi_sent pevs)).
  { intros addr pevs rp Haddr Hw.
    apply wait_run_facts in Hw as (_ & _ & _ & Hs).
    eapply Forall_impl; [exact Hs|]. intros data ->.
    apply (Hframe addr Haddr). }
  assert (Hsweep : forall addrs evs0 r0,
             sweep_run addrs evs0 r0 ->
             Forall (fun data =>
                       Forall is_byte data
                       /\ (length data = 3%nat \/ length data = 4%nat))
                    (spi_sent evs0)).
  { induction 1 as [|addr rest pevs evs0 r0 Haddr Hw _ IH
                    |addr rest pevs Haddr Hw
                    |addr rest _|addr rest e Haddr
                    |addr rest pevs r0 r' Haddr Hw _];
      cbn [spi_sent]; rewrite ?spi_sent_app;
      repeat first [ apply Forall_nil; exact I
                   | apply Forall_cons; split; [apply (Hframe _ Haddr)|]
                   | apply Forall_app; split
                   | exact (Hwait _ _ _ Haddr Hw)
                   | exact IH ]. }
  assert (Henable : Forall is_byte enable_mem_access_cmd
                    /\ (length enable_mem_access_cmd = 3%nat
                        \/ length enable_mem_access_cmd = 4%nat)).
  { split; [repeat constructor; unfold is_byte; lia|right; reflexivity]. }
  destruct Hrun;
    rewrite ?spi_sent_app; cbn [spi_sent session_begin session_end app];
    repeat first [ apply Forall_nil; exact I
                 | apply Forall_cons; split; [exact Henable|]
                 | apply Forall_app; split
                 | eapply Hsweep; eassumption ].
Qed.

(** ** When a call raises *)

Lemma clean_app (evs1 evs2 : list event) :
  clean evs1 -> clean evs2 -> clean (evs1 ++ evs2).
Proof. unfold clean. intros H1 H2. apply Forall_app. split; assumption. Qed.

Lemma fail_fast_Ret {A} (evs : list event) (a : A) :
  fail_fast evs (Ret a) -> clean evs.
Proof. intros [Hc|(pre & ev & e & _ & _ & _ & Hr)]; [exact Hc|discriminate]. Qed.

Lemma fail_fast_app {A B} (evs1 evs2 : list event) (a : A) (r : outcome B) :
  fail_fast evs1 (Ret a) -> fail_fast evs2 r -> fail_fast (evs1 ++ evs2) r.
Proof.
  intros H1 [Hc|(pre & ev & e & -> & Hpre & Hev & Hr)].
  - left. apply clean_app; [apply (fail_fast_Ret _ _ H1)|exact Hc].
  - right. exists (evs1 ++ pre), ev, e. rewrite <- app_assoc.
    repeat split; try assumption.
    apply clean_app; [apply (fail_fast_Ret _ _ H1)|exact Hpre].
Qed.

Lemma fail_fast_stop {A B} (evs : list event) (r : outcome A) (r' : outcome B) :
  stopped r r' -> fail_fast evs r -> fail_fast evs r'.
Proof.
  intros Hstop [Hc|(pre & ev & e & -> & Hpre & Hev & Hr)]; [left; exact Hc|].
  right. exists pre, ev, e. repeat split; try assumption.
  subst r. destruct r'; simpl in Hstop; try contradiction. congruence.
Qed.

Lemma FailFast_bind {A B} (m : M A) (k : A -> M B) :
  FailFast m -> (forall a, FailFast (k a)) -> FailFast (bind m k).
Proof.
  intros Hm Hk h r h'. unfold bind.
  destruct (m h) as [[a|e|] h1] eqn:Em;
    apply Hm in Em as (evs1 & -> & H1).
  - intros Ek. apply Hk in Ek as (evs2 & -> & H2).
    exists (evs1 ++ evs2). rewrite <- app_assoc. split; [reflexivity|].
    apply (fail_fast_app _ _ a); assumption.
  - intros ?; simplify_eq. exists evs1. split; [reflexivity|].
    apply (fail_fast_stop evs1 (@Raise A e)); simpl; auto.
  - intros ?; simplify_eq. exists evs1. split; [reflexivity|].
    apply (fail_fast_stop evs1 (@Diverge A)); simpl; auto.
Qed.

Lemma FailFast_pure {A} (r : outcome A) :
  FailFast (fun h => (r, h)).
Proof.
  intros h r' h' ?; simplify_eq. exists []. rewrite app_nil_r.
  split; [reflexivity|]. left. constructor.
Qed.

Lemma FailFast_lift {A} (x : exn + A) : FailFast (lift x).
Proof. destruct x; apply FailFast_pure. Qed.

Lemma FailFast_one {A} (ev : history -> event) (res : history -> outcome A) :
  (forall h, match res h with
             | Raise e => failed (ev h) = Some e
             | _ => failed (ev h) = None
             end) ->
  FailFast (fun h => (res h, h ++ [ev h])).
Proof.
  intros Hev h r h' ?; simplify_eq. exists [ev h]. split; [reflexivity|].
  specialize (Hev h). destruct (res h) as [a|e|].
  - left. repeat constructor. exact Hev.
  - right. exists [], (ev h), e. repeat split; [constructor|exact Hev].
  - left. repeat constructor. exact Hev.
Qed.

Section FailFast.

Variable env : Env.

Lemma FailFast_call (ev : history -> event) (r : history -> option exn) :
  (forall h, failed (ev h) = r h) ->
  FailFast (fun h => call (r h) (ev h) h).
Proof.
  intros Hev. apply (FailFast_one ev
    (fun h => match r h with Some e => Raise e | None => Ret tt end)).
  intros h. rewrite Hev. destruct (r h); reflexivity.
Qed.

Lemma FailFast_spi_transmit data : FailFast (spi_transmit env data).
Proof. apply (FailFast_call (fun h => ETransmit data _)). reflexivity. Qed.

Lemma FailFast_gpio_set_status v : FailFast (gpio_set_status env v).
Proof. apply (FailFast_call (fun h => EGpioStatus v _)). reflexivity. Qed.

Lemma FailFast_gpio_set_direction pin : FailFast (gpio_set_direction env pin).
Proof. apply (FailFast_call (fun h => EGpioDirection pin _)). reflexivity. Qed.

Lemma FailFast_spi_configure bus baud : FailFast (spi_configure env bus baud).
Proof. apply (FailFast_call (fun h => ESpiConfigure bus baud _)). reflexivity. Qed.

Lemma FailFast_spi_receive size : FailFast (spi_receive env size).
Proof.
  apply (FailFast_one (fun h => EReceive size (env_receive env h size))
           (fun h => match env_receive env h size with
                     | inl e => Raise e
                     | inr d => Ret d
                     end)).
  intros h. cbn. destruct (env_receive env h size); reflexivity.
Qed.

Lemma FailFast_device_id_run bus line baud :
  FailFast (device_id_run env bus line baud).
Proof.
  apply (FailFast_one
           (fun h => EDeviceId bus line baud (env_device_id env h bus line baud))
           (fun h => match env_device_id env h bus line baud with
                     | inl e => Raise e
                     | inr d => Ret d
                     end)).
  intros h. cbn. destruct (env_device_id env h bus line baud); reflexivity.
Qed.

Lemma FailFast_time_time : FailFast (time_time env).
Proof.
  apply (FailFast_one (fun h => ETime (env_time env h))
           (fun h => Ret (env_time env h))).
  reflexivity.
Qed.

Lemma FailFast_time_sleep secs : FailFast (time_sleep secs).
Proof.
  apply (FailFast_one (fun _ => ESleep secs) (fun _ => Ret tt)). reflexivity.
Qed.

Lemma FailFast_logger_handle msg lvl : FailFast (logger_handle msg lvl).
Proof.
  apply (FailFast_one (fun _ => ELog lvl msg) (fun _ => Ret tt)). reflexivity.
Qed.

Ltac fail_fast_step :=
  first [ apply FailFast_bind; [|intros ?]
        | apply FailFast_lift
        | apply FailFast_spi_transmit
        | apply FailFast_spi_receive
        | apply FailFast_gpio_set_status
        | apply FailFast_gpio_set_direction
        | apply FailFast_spi_configure
        | apply FailFast_device_id_run
        | apply FailFast_time_time
        | apply FailFast_time_sleep
        | apply FailFast_logger_handle
        | apply FailFast_pure ].

Lemma FailFast_poll_loop fuel timeout byte addr :
  FailFast (poll_loop env fuel timeout byte addr).
Proof.
  induction fuel as [|fuel IH]; cbn [poll_loop]; [apply FailFast_pure|].
  repeat fail_fast_step.
  destruct (_ =? byte); [apply FailFast_pure|].
  repeat fail_fast_step.
  destruct (float_gt _ timeout); [apply FailFast_pure|exact IH].
Qed.

Lemma FailFast_wait_poll_eeprom fuel byte addr :
  FailFast (wait_poll_eeprom env fuel byte addr).
Proof.
  unfold wait_poll_eeprom. repeat fail_fast_step. apply FailFast_poll_loop.
Qed.

Lemma FailFast_erase_sweep fuel addrs : FailFast (erase_sweep env fuel addrs).
Proof.
  induction addrs as [|addr addrs IH]; cbn [erase_sweep];
    [apply FailFast_pure|].
  repeat first [apply FailFast_wait_poll_eeprom|fail_fast_step].
  destruct (negb _); [repeat fail_fast_step|exact IH].
Qed.

Lemma FailFast_erase fuel dev : FailFast (erase env fuel dev).
Proof.
  unfold erase. repeat first [apply FailFast_erase_sweep|fail_fast_step].
  match goal with |- FailFast (match ?x with _ => _ end) => destruct x end;
    repeat fail_fast_step.
Qed.

Lemma FailFast_process fuel opts : FailFast (process env fuel opts).
Proof.
  unfold process, get_device_id. repeat fail_fast_step.
  match goal with |- FailFast (match ?x with _ => _ end) => destruct x end;
    repeat first [apply FailFast_erase|fail_fast_step].
Qed.

End FailFast.

(** X16: [process], and with it [erase] and [wait_poll_eeprom], stops at the
    first call that raises.  Either no call of the run raised, or the call
    that raised is the last one of the run and [process] raises the
    exception of this call: no call on the SPI interface or on the reset
    line follows a failed one. *)
Theorem process_fail_fast
    (env : Env) (fuel : nat) (opts : Options) (h : history) :
  exists evs,
    snd (process env fuel opts h) = h ++ evs
    /\ (clean evs
        \/ exists pre ev e,
             evs = pre ++ [ev]
             /\ clean pre
             /\ failed ev = Some e
             /\ fst (process env fuel opts h) = Raise e).
Proof.
  destruct (process env fuel opts h) as [r h'] eqn:Hproc.
  apply FailFast_process in Hproc as (evs & -> & Hfast).
  exists evs. split; [reflexivity|exact Hfast].
Qed.

(** ** The reset line during the SPI calls *)

Lemma spi_levels_app cur evs1 evs2 :
  spi_levels cur (evs1 ++ evs2)
  = spi_levels cur evs1 ++ spi_levels (reset_level_from cur evs1) evs2.
Proof.
  revert cur. induction evs1 as [|ev evs1 IH]; intros cur; [reflexivity|].
  destruct ev as [| | | |v [e|]| | | | |]; cbn; rewrite IH; reflexivity.
Qed.

Lemma spi_levels_quiet cur evs :
  Forall (fun ev => is_gpio_status ev = false) evs ->
  Forall (fun lvl => lvl = cur) (spi_levels cur evs).
Proof.
  induction 1 as [|ev evs Hev _ IH]; [constructor|].
  destruct ev; cbn in *; try discriminate; try constructor; auto.
Qed.

Lemma erase_run_spi_levels dev evs r cur :
  erase_run dev evs r ->
  Forall (fun lvl => lvl = Some 0) (spi_levels cur evs).
Proof.
  intros Hrun.
  destruct Hrun as [e|e|e Herr|size evs r r' Hsize Hsweep Hstop
                    |size evs v Hsize Hsweep
                    |size evs e Hsize Hsweep|size evs Hsize Hsweep];
    try (repeat constructor);
    apply sweep_run_quiet in Hsweep;
    rewrite ?spi_levels_app, ?reset_level_from_app,
      ?(reset_level_from_quiet _ evs Hsweep);
    repeat first [ apply Forall_app; split
                 | apply (spi_levels_quiet (Some 0) evs Hsweep) ];
    repeat constructor.
Qed.

(** X17: every call to [transmit] and to [receive] that [process] makes
    comes while the reset line is at 0, the level that [erase] set: none
    comes before the line was driven low, and none after it was set back
    to 1. *)
Theorem process_spi_under_reset
    (env : Env) (fuel : nat) (opts : Options) (h : history) :
  exists evs,
    snd (process env fuel opts h) = h ++ evs
    /\ Forall (fun lvl => lvl = Some 0) (spi_levels (reset_level h) evs).
Proof.
  destruct (process env fuel opts h) as [r h'] eqn:Hproc.
  apply process_run_sound in Hproc as (evs & -> & Hrun).
  exists evs. split; [reflexivity|].
  destruct Hrun as [e| |dev e|dev e|dev e|dev evs r r' Herase Hstop
                    |dev evs b Herase];
    try (cbn; constructor);
    rewrite spi_levels_app; (apply Forall_app; split; [constructor|]);
    apply (erase_run_spi_levels _ _ _ _ Herase).
Qed.
